(** * AutoFillManager: form matching, section resolution and fill resolution

    A shallow embedding of chrome/browser/autofill/autofill_manager.cc.

    - [int] is a 32-bit two's complement integer, modelled in [Z] with the
      wrap-around written out ([wrap_int]);
    - [size_t] indices are [nat];
    - [string16] and [std::string] are [string];
    - [std::map] is [gmap], [std::set] is [gset], [std::vector] is [list];
    - member and static variables are threaded explicitly as a state record. *)

From stdpp Require Import base gmap strings list.
From Stdlib Require Import ZArith Lia.

Local Open Scope Z_scope.

(** * The program *)

(** ** 32-bit integers *)

Definition wrap_int (z : Z) : Z := (z + 2 ^ 31) mod 2 ^ 32 - 2 ^ 31.

(** [std::numeric_limits<unsigned short>::digits] and [::max()]. *)
Definition ushort_digits : Z := 16.
Definition ushort_max : Z := 65535.

(** ** Identifier codec: PackGUIDs / UnpackGUIDs / GUIDToID / IDToGUID *)

Section codec.
(** [guid::IsValidGUID] lives in chrome/common/guid.h; the codec only
    branches on its result. *)
Variable IsValidGUID : string → bool.

(** [last_id] is the function-local static of [GUIDToID]; the two maps are
    the members [guid_id_map_] and [id_guid_map_]. [last_id++] is written
    without wrap-around: overflowing the counter is undefined in C++ and lies
    far beyond the 65535 ids that fit the packing. *)
Record CodecState := mkCodecState {
  last_id : Z;
  guid_id_map : gmap string Z;
  id_guid_map : gmap Z string
}.

Definition codec_init : CodecState :=
  {| last_id := 1; guid_id_map := ∅; id_guid_map := ∅ |}.

Definition GUIDToID (s : CodecState) (guid : string) : Z * CodecState :=
  if negb (IsValidGUID guid) then (0, s)
  else
    match guid_id_map s !! guid with
    | None =>
        (last_id s,
         {| last_id := last_id s + 1;
            guid_id_map := <[guid := last_id s]> (guid_id_map s);
            id_guid_map := <[last_id s := guid]> (id_guid_map s) |})
    | Some id => (id, s)
    end.

Definition IDToGUID (s : CodecState) (id : Z) : string :=
  if decide (id = 0) then ""
  else
    match id_guid_map s !! id with
    | None => ""  (* NOTREACHED() *)
    | Some g => g
    end.

Definition PackGUIDs (s : CodecState) (cc_guid profile_guid : string)
    : Z * CodecState :=
  let '(cc_id, s1) := GUIDToID s cc_guid in
  let '(profile_id, s2) := GUIDToID s1 profile_guid in
  (Z.lor (wrap_int (Z.shiftl cc_id ushort_digits)) profile_id, s2).

Definition UnpackGUIDs (s : CodecState) (id : Z) : string * string :=
  let cc_id := Z.land (Z.shiftr id ushort_digits) ushort_max in
  let profile_id := Z.land id ushort_max in
  (IDToGUID s cc_id, IDToGUID s profile_id).

(** What can happen to the codec state between two calls: this manager
    packs another pair, or another manager draws ids from the shared
    static counter. *)
Inductive codec_step : CodecState → CodecState → Prop :=
  | step_pack s cc_guid profile_guid :
      codec_step s (PackGUIDs s cc_guid profile_guid).2
  | step_foreign s n :
      0 ≤ n →
      codec_step s {| last_id := last_id s + n;
                      guid_id_map := guid_id_map s;
                      id_guid_map := id_guid_map s |}.

Definition codec_steps := rtc codec_step.
Definition codec_reachable (s : CodecState) : Prop := codec_steps codec_init s.

(** A string stands for an optional identifier when it is either a valid
    GUID or the empty string (absent). *)
Definition optional_guid (g : string) : Prop := IsValidGUID g = true ∨ g = "".

(** What every reachable state satisfies: ids are handed out below
    [last_id], and the two maps agree. *)
Record codec_inv (s : CodecState) : Prop := {
  inv_last_pos : 1 ≤ last_id s;
  inv_ids_below : ∀ id g, id_guid_map s !! id = Some g → 1 ≤ id < last_id s;
  inv_back : ∀ g id, guid_id_map s !! g = Some id → id_guid_map s !! id = Some g
}.

(** [s'] remembers every id that [s] has handed out. *)
Definition codec_extends (s s' : CodecState) : Prop :=
  last_id s ≤ last_id s' ∧ id_guid_map s ⊆ id_guid_map s'.

(** The string that comes back for an arbitrary input string. *)
Definition decoded_guid (g : string) : string := if IsValidGUID g then g else "".

End codec.

(** ** Data model: field types, form fields, cached forms *)

Local Close Scope Z_scope.

(** Modelled from the spec: [AutoFillType::FieldTypeGroup] is declared in
    autofill_type.h, which is not part of the sources. The manager names
    [NO_GROUP], [PHONE_HOME], [PHONE_FAX] and [CREDIT_CARD]; the two identity
    groups are the glossary's identity-name and identity-address. *)
Inductive FieldTypeGroup :=
  | NO_GROUP | CONTACT_INFO | ADDRESS_HOME | PHONE_HOME | PHONE_FAX | CREDIT_CARD.

Global Instance FieldTypeGroup_eq_dec : EqDecision FieldTypeGroup.
Proof. solve_decision. Defined.

(** The interface of [AutofillFieldType] / [AutoFillType] the manager uses.
    The enumeration itself and the tables behind [GetEquivalentFieldType],
    [group] and [subgroup] live in field_types.h and autofill_type.cc. *)
Class FieldTypes := {
  AutofillFieldType : Type;
  AutofillFieldType_eq_dec :: EqDecision AutofillFieldType;
  AutofillFieldType_countable :: Countable AutofillFieldType;
  UNKNOWN_TYPE : AutofillFieldType;
  CREDIT_CARD_NUMBER : AutofillFieldType;
  CREDIT_CARD_EXP_MONTH : AutofillFieldType;
  CREDIT_CARD_EXP_4_DIGIT_YEAR : AutofillFieldType;
  GetEquivalentFieldType : AutofillFieldType → AutofillFieldType;
  group : AutofillFieldType → FieldTypeGroup;
  (** [type.subgroup() == AutoFillType::PHONE_NUMBER] *)
  subgroup_is_PHONE_NUMBER : AutofillFieldType → bool
}.

(** [webkit_glue::FormField]. *)
Record FormField := mkFormField {
  label : string;
  name : string;
  value : string;
  form_control_type : string;
  max_length : Z;
  is_autofilled : bool
}.

Definition set_value (field : FormField) (v : string) : FormField :=
  {| label := label field; name := name field; value := v;
     form_control_type := form_control_type field;
     max_length := max_length field; is_autofilled := is_autofilled field |}.

(** Modelled from the spec: [FormField::operator==] is defined in
    webkit/glue/form_field.cc, which is not part of the sources. Structural
    identity is the name/label/control-kind/max-length tuple; the current
    value and the autofilled flag do not take part. *)
Definition FormField_eq (a b : FormField) : bool :=
  bool_decide (label a = label b) && bool_decide (name a = name b) &&
  bool_decide (form_control_type a = form_control_type b) &&
  bool_decide (max_length a = max_length b).

(** Modelled from the spec: the [PhoneNumber] constants are declared in
    phone_number.h, which is not part of the sources. The spec fixes a prefix
    of 3 and a suffix of 7 characters; the prefix is the leading substring and
    the suffix the one that follows it. *)
Module PhoneNumber.
Definition kPrefixOffset : Z := 0.
Definition kPrefixLength : Z := 3.
Definition kSuffixOffset : Z := 3.
Definition kSuffixLength : Z := 7.
End PhoneNumber.

(** [string16::substr(pos, n)] for [pos <= length()]; the standard library
    raises [out_of_range] beyond that, which no call below can reach. *)
Definition substr (s : string) (pos n : Z) : string :=
  String.substring (Z.to_nat pos) (Z.to_nat n) s.

(** [std::vector::resize(n)] of a vector of strings. *)
Definition resize (n : nat) (l : list string) : list string :=
  take n l ++ replicate (n - length l) "".

Section forms.
Context `{FieldTypes}.

(** [AutoFillField] is a [FormField] together with its inferred type. *)
Record AutoFillField := mkAutoFillField {
  form_field : FormField;
  type : AutofillFieldType
}.

(** [FormStructure]: the cached fields, the scheme of [source_url()], the
    answer of [IsAutoFillable(require_method_post)] and [autofill_count()],
    the number of fields of known type. *)
Record FormStructure := mkFormStructure {
  fields : list AutoFillField;
  source_url_scheme : string;
  IsAutoFillable : bool → bool;
  autofill_count : nat
}.

Definition field_count (form : FormStructure) : nat := length (fields form).

(** [webkit_glue::FormData], as far as the manager reads it. *)
Record FormData := mkFormData {
  form_name : string;
  form_fields : list FormField
}.

(** *** FindSectionBounds *)

Record SectionScan := mkSectionScan {
  section_start : nat;
  section_end : nat;
  seen_types : gset AutofillFieldType;
  initiating_field_is_in_current_section : bool
}.

Inductive LoopControl (A : Type) :=
  | Continue (st : A)
  | Break (st : A).
Global Arguments Continue {A} st.
Global Arguments Break {A} st.

Definition is_phone_group (g : FieldTypeGroup) : bool :=
  bool_decide (g = PHONE_HOME) || bool_decide (g = PHONE_FAX).

(** One iteration of the loop at index [i]. The initiating field is an
    element of the form, so the pointer comparison [current_field == &field]
    is the comparison of [i] with the index [field] of that element. *)
Definition FindSectionBounds_body (field : nat) (is_filling_credit_card : bool)
    (i : nat) (current_field : AutoFillField) (st : SectionScan)
    : LoopControl SectionScan :=
  let current_type := GetEquivalentFieldType (type current_field) in
  if bool_decide (current_type = UNKNOWN_TYPE) then Continue st
  else
    let already_saw_current_type := bool_decide (current_type ∈ seen_types st) in
    let current_type_group := group current_type in
    let already_saw_current_type :=
      if is_phone_group current_type_group then false
      else already_saw_current_type in
    let is_credit_card_field := bool_decide (current_type_group = CREDIT_CARD) in
    let is_appropriate_type := eqb is_credit_card_field is_filling_credit_card in
    let finish (st : SectionScan) :=
      Continue
        {| section_start := section_start st;
           section_end := section_end st;
           seen_types := {[ current_type ]} ∪ seen_types st;
           initiating_field_is_in_current_section :=
             if bool_decide (i = field) then true
             else initiating_field_is_in_current_section st |} in
    if already_saw_current_type || negb is_appropriate_type then
      if initiating_field_is_in_current_section st then
        Break {| section_start := section_start st;
                 section_end := i;
                 seen_types := seen_types st;
                 initiating_field_is_in_current_section :=
                   initiating_field_is_in_current_section st |}
      else if is_appropriate_type then
        finish {| section_start := i;
                  section_end := section_end st;
                  seen_types := ∅;
                  initiating_field_is_in_current_section :=
                    initiating_field_is_in_current_section st |}
      else
        Continue {| section_start := (i + 1)%nat;
                    section_end := section_end st;
                    seen_types := ∅;
                    initiating_field_is_in_current_section :=
                      initiating_field_is_in_current_section st |}
    else finish st.

Fixpoint FindSectionBounds_loop (field : nat) (is_filling_credit_card : bool)
    (i : nat) (rest : list AutoFillField) (st : SectionScan) : SectionScan :=
  match rest with
  | [] => st
  | current_field :: rest' =>
      match FindSectionBounds_body field is_filling_credit_card i current_field st with
      | Continue st' =>
          FindSectionBounds_loop field is_filling_credit_card (S i) rest' st'
      | Break st' => st'
      end
  end.

Definition FindSectionBounds_scan (form : FormStructure) (field : nat)
    (is_filling_credit_card : bool) : SectionScan :=
  FindSectionBounds_loop field is_filling_credit_card 0%nat (fields form)
    {| section_start := 0%nat;
       section_end := field_count form;
       seen_types := ∅;
       initiating_field_is_in_current_section := false |}.

(** The two out-parameters [*section_start] and [*section_end]. *)
Definition FindSectionBounds (form : FormStructure) (field : nat)
    (is_filling_credit_card : bool) : nat * nat :=
  let st := FindSectionBounds_scan form field is_filling_credit_card in
  (section_start st, section_end st).

(** The condition of the closing [DCHECK]. *)
Definition FindSectionBounds_found (form : FormStructure) (field : nat)
    (is_filling_credit_card : bool) : bool :=
  initiating_field_is_in_current_section
    (FindSectionBounds_scan form field is_filling_credit_card).

(** The type the scan looks at, and whether it suits the data being filled. *)
Definition current_type_of (fld : AutoFillField) : AutofillFieldType :=
  GetEquivalentFieldType (type fld).

Definition appropriate (is_filling_credit_card : bool) (fld : AutoFillField) : bool :=
  eqb (bool_decide (group (current_type_of fld) = CREDIT_CARD)) is_filling_credit_card.

(** *** RemoveDuplicateSuggestions *)

(** The four vectors are read at the same index [i < values->size()]; a
    vector shorter than [values] would be read out of bounds, which is
    [None] here. The copies grow by [push_back]. *)
Fixpoint RemoveDuplicateSuggestions_loop
    (seen_suggestions : gset (string * string))
    (values labels icons : list string) (unique_ids : list Z)
    (copy : list string * list string * list string * list Z)
    : option (list string * list string * list string * list Z) :=
  match values with
  | [] => Some copy
  | v :: values' =>
      match labels, icons, unique_ids with
      | l :: labels', ic :: icons', u :: unique_ids' =>
          let '(values_copy, labels_copy, icons_copy, unique_ids_copy) := copy in
          if bool_decide ((v, l) ∈ seen_suggestions) then
            RemoveDuplicateSuggestions_loop seen_suggestions
              values' labels' icons' unique_ids' copy
          else
            RemoveDuplicateSuggestions_loop ({[ (v, l) ]} ∪ seen_suggestions)
              values' labels' icons' unique_ids'
              (values_copy ++ [v], labels_copy ++ [l],
               icons_copy ++ [ic], unique_ids_copy ++ [u])
      | _, _, _ => None
      end
  end.

Definition RemoveDuplicateSuggestions
    (values labels icons : list string) (unique_ids : list Z)
    : option (list string * list string * list string * list Z) :=
  RemoveDuplicateSuggestions_loop ∅ values labels icons unique_ids ([], [], [], []).

(** *** SectionIsAutoFilled *)

(** [while (k < form_structure->field_count() && *field(k) != live) k++],
    run on the cached fields from index [k] on; the result is the final [k],
    which is [field_count] when nothing matches. *)
Fixpoint search_form (live : FormField) (k : nat)
    (cached_from_k : list AutoFillField) : nat :=
  match cached_from_k with
  | [] => k
  | c :: rest =>
      if negb (FormField_eq (form_field c) live) then search_form live (S k) rest
      else k
  end.

(** [live] equals the cached field at index [k]. *)
Definition matches_at (cached : list AutoFillField) (live : FormField) (k : nat)
    : Prop :=
  ∃ c, cached !! k = Some c ∧ FormField_eq (form_field c) live = true.

(** The loop over the live fields; [j] is the position in the list. *)
Fixpoint SectionIsAutoFilled_loop (form_structure : FormStructure)
    (section_end : nat) (i : nat) (live_from_j : list FormField) : bool :=
  match live_from_j with
  | [] => false
  | live_j :: live' =>
      if negb (i <? section_end) then false
      else
        let k := search_form live_j i (drop i (fields form_structure)) in
        if field_count form_structure <=? k then
          SectionIsAutoFilled_loop form_structure section_end i live'
        else if is_autofilled live_j then true
        else SectionIsAutoFilled_loop form_structure section_end (S i) live'
  end.

Definition SectionIsAutoFilled (form_structure : FormStructure) (form : FormData)
    (section_start section_end : nat) : bool :=
  SectionIsAutoFilled_loop form_structure section_end section_start (form_fields form).

(** The value of the cursor [i] when the loop above starts the iteration for
    the live field at position [j] of [live_from_j]; [None] when the loop has
    ended or returned before that iteration. *)
Fixpoint SectionIsAutoFilled_cursor (form_structure : FormStructure)
    (section_end : nat) (i : nat) (live_from_j : list FormField) (j : nat)
    : option nat :=
  match live_from_j with
  | [] => None
  | live_j :: live' =>
      if negb (i <? section_end) then None
      else
        match j with
        | 0 => Some i
        | S j' =>
            let k := search_form live_j i (drop i (fields form_structure)) in
            if field_count form_structure <=? k then
              SectionIsAutoFilled_cursor form_structure section_end i live' j'
            else if is_autofilled live_j then None
            else SectionIsAutoFilled_cursor form_structure section_end (S i) live' j'
        end
  end.

Definition FormIsHTTPS (form : FormStructure) : bool :=
  bool_decide (source_url_scheme form = "https").

(** *** Stored records *)

(** An [AutoFillProfile], as far as the manager reads it. *)
Record AutoFillProfile := mkAutoFillProfile {
  AutoFillProfile_guid : string;
  AutoFillProfile_GetFieldText : AutofillFieldType → string
}.

(** A [CreditCard], as far as the manager reads it. *)
Record CreditCard := mkCreditCard {
  CreditCard_guid : string;
  CreditCard_GetFieldText : AutofillFieldType → string;
  ObfuscatedNumber : string;
  LastFourDigits : string;
  CreditCard_type : string
}.

(** *** Value resolver: FillCreditCardFormField, FillFormField,
    FillPhoneNumberField *)

(** [autofill::FillSelectControl] (select_control_handler.h) picks an option
    of a select control; it only touches the field it is given. *)
Variable FillSelectControl_card : CreditCard → AutofillFieldType → FormField → FormField.
Variable FillSelectControl_profile :
  AutoFillProfile → AutofillFieldType → FormField → FormField.

Definition FillCreditCardFormField (credit_card : CreditCard)
    (type : AutofillFieldType) (field : FormField) : FormField :=
  if bool_decide (form_control_type field = "select-one") then
    FillSelectControl_card credit_card type field
  else if bool_decide (form_control_type field = "month") then
    let year := CreditCard_GetFieldText credit_card CREDIT_CARD_EXP_4_DIGIT_YEAR in
    let month := CreditCard_GetFieldText credit_card CREDIT_CARD_EXP_MONTH in
    if negb (bool_decide (year = "")) && negb (bool_decide (month = "")) then
      set_value field (year +:+ "-" +:+ month)
    else field
  else set_value field (CreditCard_GetFieldText credit_card type).

Definition FillPhoneNumberField (profile : AutoFillProfile)
    (type : AutofillFieldType) (field : FormField) : FormField :=
  let number := AutoFillProfile_GetFieldText profile type in
  let has_valid_suffix_and_prefix :=
    bool_decide (Z.of_nat (String.length number) =
                 (PhoneNumber.kPrefixLength + PhoneNumber.kSuffixLength)%Z) in
  if has_valid_suffix_and_prefix &&
     bool_decide (max_length field = PhoneNumber.kPrefixLength) then
    set_value field
      (substr number PhoneNumber.kPrefixOffset PhoneNumber.kPrefixLength)
  else if has_valid_suffix_and_prefix &&
          bool_decide (max_length field = PhoneNumber.kSuffixLength) then
    set_value field
      (substr number PhoneNumber.kSuffixOffset PhoneNumber.kSuffixLength)
  else set_value field number.

Definition FillFormField (profile : AutoFillProfile)
    (type : AutofillFieldType) (field : FormField) : FormField :=
  if subgroup_is_PHONE_NUMBER type then FillPhoneNumberField profile type field
  else if bool_decide (form_control_type field = "select-one") then
    FillSelectControl_profile profile type field
  else set_value field (AutoFillProfile_GetFieldText profile type).

(** The record being filled: [if (profile) ... else ...] with
    [credit_card] non-null in the else branch. *)
Inductive FillSource :=
  | FromProfile (profile : AutoFillProfile)
  | FromCreditCard (credit_card : CreditCard).

Definition fill_from (src : FillSource) (type : AutofillFieldType)
    (field : FormField) : FormField :=
  match src with
  | FromProfile profile => FillFormField profile type field
  | FromCreditCard credit_card => FillCreditCardFormField credit_card type field
  end.

(** *** The fill-targeting loop of OnFillAutoFillFormData *)

(** [while (k < section_end && *field(k) != live) k++] on the cached fields
    from index [k] on. Reading a cached field at or beyond [field_count]
    is out of bounds: [None]. *)
Fixpoint search_section (live : FormField) (section_end : nat) (k : nat)
    (cached_from_k : list AutoFillField) : option nat :=
  if section_end <=? k then Some k
  else
    match cached_from_k with
    | [] => None
    | c :: rest =>
        if negb (FormField_eq (form_field c) live) then
          search_section live section_end (S k) rest
        else Some k
    end.

(** The loop returns the filled live fields together with the list of
    correspondences (cached index [k], live index [j]) it found, in the
    order it found them. *)
Fixpoint fill_section_loop (src : FillSource) (form_structure : FormStructure)
    (section_end : nat) (i j : nat) (result_from_j : list FormField)
    : option (list (nat * nat) * list FormField) :=
  match result_from_j with
  | [] => Some ([], [])
  | live_j :: result' =>
      if negb (i <? section_end) then Some ([], result_from_j)
      else
        match search_section live_j section_end i (drop i (fields form_structure)) with
        | None => None
        | Some k =>
            if section_end <=? k then
              '(matched, filled) ←
                fill_section_loop src form_structure section_end i (S j) result';
              Some (matched, live_j :: filled)
            else
              cached_k ← fields form_structure !! k;
              let autofill_type := type cached_k in
              let live_j' :=
                if negb (bool_decide (group autofill_type = NO_GROUP)) then
                  fill_from src autofill_type live_j
                else live_j in
              '(matched, filled) ←
                fill_section_loop src form_structure section_end (S i) (S j) result';
              Some ((k, j) :: matched, live_j' :: filled)
        end
  end.

(** The already-filled branch: fill the first live field equal to the
    initiating field and stop. *)
Fixpoint fill_single_field (src : FillSource) (type : AutofillFieldType)
    (field : FormField) (result_fields : list FormField) : list FormField :=
  match result_fields with
  | [] => []
  | iter :: rest =>
      if FormField_eq iter field then fill_from src type iter :: rest
      else iter :: fill_single_field src type field rest
  end.

(** [j] is the first position of [l] whose field equals [field]. *)
Definition first_equal_to (field : FormField) (l : list FormField) (j : nat) : Prop :=
  (∃ live, l !! j = Some live ∧ FormField_eq live field = true) ∧
  ∀ j' live', j' < j → l !! j' = Some live' → FormField_eq live' field = false.

(** *** The manager and its two message handlers *)

(** External collaborators: GUID validation (guid.h), the comparison of a
    cached form with a live form (form_structure.h), the prefix test
    (string_util.h), label inference (autofill_profile.h), localized
    strings (l10n_util.h) and the two message ids (generated_resources.h). *)
Variable IsValidGUID : string → bool.
Variable FormStructure_eq : FormStructure → FormData → bool.
Variable StartsWith : string → string → bool → bool.
Variable CreateInferredLabels :
  list AutoFillProfile → list AutofillFieldType → AutofillFieldType → nat →
  list string.
Variable GetStringUTF16 : Z → string.
Variable IDS_AUTOFILL_WARNING_FORM_DISABLED : Z.
Variable IDS_AUTOFILL_WARNING_INSECURE_CONNECTION : Z.

Record AutoFillManager := mkAutoFillManager {
  IsAutoFillEnabled : bool;
  has_render_view_host : bool;
  profiles : list AutoFillProfile;
  credit_cards : list CreditCard;
  form_structures_ : list FormStructure;
  codec_state : CodecState
}.

Definition is_empty {A} (l : list A) : bool :=
  match l with [] => true | _ => false end.

Definition GetHost (m : AutoFillManager) : bool :=
  if negb (IsAutoFillEnabled m) then false
  else if is_empty (profiles m) && is_empty (credit_cards m) then false
  else has_render_view_host m.

Definition FindCachedForm (m : AutoFillManager) (form : FormData)
    : option FormStructure :=
  List.find (λ fs, FormStructure_eq fs form) (form_structures_ m).

Fixpoint find_field_index (field : FormField) (i : nat)
    (cached_from_i : list AutoFillField) : option nat :=
  match cached_from_i with
  | [] => None
  | c :: rest =>
      if FormField_eq (form_field c) field then Some i
      else find_field_index field (S i) rest
  end.

(** The cached form and the index of the cached field equal to [field]. *)
Definition FindCachedFormAndField (m : AutoFillManager) (form : FormData)
    (field : FormField) : option (FormStructure * nat) :=
  form_structure ← FindCachedForm m form;
  if bool_decide (autofill_count form_structure = 0) then None
  else
    autofill_field ← find_field_index field 0 (fields form_structure);
    Some (form_structure, autofill_field).

(** What the handler sends to the renderer. *)
Inductive FillReply :=
  | NoReply
  | FormDataFilled (result : FormData).

Definition with_fields (form : FormData) (l : list FormField) : FormData :=
  {| form_name := form_name form; form_fields := l |}.

(** The two record lookups by GUID. *)
Definition find_profile (m : AutoFillManager) (profile_guid : string)
    : option AutoFillProfile :=
  if IsValidGUID profile_guid then
    List.find (λ p, bool_decide (AutoFillProfile_guid p = profile_guid)) (profiles m)
  else None.

Definition find_credit_card (m : AutoFillManager) (cc_guid : string)
    : option CreditCard :=
  if IsValidGUID cc_guid then
    List.find (λ c, bool_decide (CreditCard_guid c = cc_guid)) (credit_cards m)
  else None.

(** [if (profile) ... else ...]: the profile wins when both are present. *)
Definition fill_source (profile : option AutoFillProfile)
    (credit_card : option CreditCard) : option FillSource :=
  match profile, credit_card with
  | Some p, _ => Some (FromProfile p)
  | None, Some c => Some (FromCreditCard c)
  | None, None => None
  end.

(** The reply of OnFillAutoFillFormData; [None] stands for a read beyond
    the cached fields. The list of filled form signatures is not modelled. *)
Definition OnFillAutoFillFormData (m : AutoFillManager) (form : FormData)
    (field : FormField) (unique_id : Z) : option FillReply :=
  if negb (GetHost m) then Some NoReply
  else
    match FindCachedFormAndField m form field with
    | None => Some NoReply
    | Some (form_structure, autofill_field) =>
        let '(cc_guid, profile_guid) :=
          UnpackGUIDs (codec_state m) unique_id in
        let profile := find_profile m profile_guid in
        let credit_card := find_credit_card m cc_guid in
        match fill_source profile credit_card with
        | None => Some NoReply
        | Some src =>
            let '(section_start, section_end) :=
              FindSectionBounds form_structure autofill_field
                (bool_decide (is_Some credit_card)) in
            if SectionIsAutoFilled form_structure form section_start section_end
            then
              autofill_type ← type <$> fields form_structure !! autofill_field;
              Some (FormDataFilled
                      (with_fields form
                         (fill_single_field src autofill_type field
                            (form_fields form))))
            else
              '(_, filled) ←
                fill_section_loop src form_structure section_end section_start 0
                  (form_fields form);
              Some (FormDataFilled (with_fields form filled))
        end
    end.

(** *** Suggestions *)

(** The four parallel vectors [values], [labels], [icons], [unique_ids]. *)
Definition Suggestions : Type :=
  list string * list string * list string * list Z.

Definition kCreditCardPrefix : string := "*".

(** Both suggestion builders are called on empty vectors; they return the
    vectors they build and the codec state after their [PackGUIDs] calls. *)
Fixpoint GetCreditCardSuggestions_loop (field : FormField)
    (type : AutofillFieldType) (cards : list CreditCard)
    (acc : Suggestions) (cs : CodecState) : Suggestions * CodecState :=
  match cards with
  | [] => (acc, cs)
  | credit_card :: rest =>
      let creditcard_field_value := CreditCard_GetFieldText credit_card type in
      if negb (bool_decide (creditcard_field_value = "")) &&
         StartsWith creditcard_field_value (value field) false then
        let creditcard_field_value :=
          if bool_decide (type = CREDIT_CARD_NUMBER) then ObfuscatedNumber credit_card
          else creditcard_field_value in
        let '(values, labels, icons, unique_ids) := acc in
        let '(id, cs') := PackGUIDs IsValidGUID cs (CreditCard_guid credit_card) "" in
        GetCreditCardSuggestions_loop field type rest
          (values ++ [creditcard_field_value],
           labels ++ [kCreditCardPrefix +:+ LastFourDigits credit_card],
           icons ++ [CreditCard_type credit_card],
           unique_ids ++ [id]) cs'
      else GetCreditCardSuggestions_loop field type rest acc cs
  end.

Definition GetCreditCardSuggestions (m : AutoFillManager) (field : FormField)
    (type : AutofillFieldType) : Suggestions * CodecState :=
  GetCreditCardSuggestions_loop field type (credit_cards m) ([], [], [], [])
    (codec_state m).

Fixpoint GetProfileSuggestions_loop (field : FormField)
    (type : AutofillFieldType) (ps : list AutoFillProfile)
    (acc : list AutoFillProfile * list string * list Z) (cs : CodecState)
    : list AutoFillProfile * list string * list Z * CodecState :=
  match ps with
  | [] => (acc, cs)
  | profile :: rest =>
      let profile_field_value := AutoFillProfile_GetFieldText profile type in
      if negb (bool_decide (profile_field_value = "")) &&
         StartsWith profile_field_value (value field) false then
        let '(matched_profiles, values, unique_ids) := acc in
        let '(id, cs') := PackGUIDs IsValidGUID cs "" (AutoFillProfile_guid profile) in
        GetProfileSuggestions_loop field type rest
          (matched_profiles ++ [profile], values ++ [profile_field_value],
           unique_ids ++ [id]) cs'
      else GetProfileSuggestions_loop field type rest acc cs
  end.

(** The vector [form_fields] of the types of all cached fields. *)
Definition field_types_of (form : FormStructure) : list AutofillFieldType :=
  type <$> fields form.

Definition GetProfileSuggestions (m : AutoFillManager) (form : FormStructure)
    (field : FormField) (type : AutofillFieldType) : Suggestions * CodecState :=
  let '(matched_profiles, values, unique_ids, cs) :=
    GetProfileSuggestions_loop field type (profiles m) ([], [], []) (codec_state m) in
  let form_fields := field_types_of form in
  let labels := CreateInferredLabels matched_profiles form_fields type 1 in
  let icons := resize (length values) [] in
  ((values, labels, icons, unique_ids), cs).

(** The vectors handed to the autocomplete history manager, and the codec
    state afterwards; [None] stands for a read beyond one of the vectors in
    RemoveDuplicateSuggestions. *)
Definition OnQueryFormFieldAutoFill (m : AutoFillManager) (form : FormData)
    (field : FormField) : option (Suggestions * CodecState) :=
  let nothing := Some (([], [], [], []), codec_state m) in
  if negb (GetHost m) then nothing
  else
    match FindCachedFormAndField m form field with
    | None => nothing
    | Some (form_structure, autofill_field) =>
        if negb (IsAutoFillable form_structure false) then nothing
        else
          type ← type <$> fields form_structure !! autofill_field;
          let is_filling_credit_card := bool_decide (group type = CREDIT_CARD) in
          let '((values, labels, icons, unique_ids), cs) :=
            if is_filling_credit_card then GetCreditCardSuggestions m field type
            else GetProfileSuggestions m form_structure field type in
          if negb (is_empty values) then
            let warning :=
              if negb (IsAutoFillable form_structure true) then
                IDS_AUTOFILL_WARNING_FORM_DISABLED
              else if is_filling_credit_card && negb (FormIsHTTPS form_structure)
              then IDS_AUTOFILL_WARNING_INSECURE_CONNECTION
              else 0%Z in
            if negb (bool_decide (warning = 0%Z)) then
              Some (([GetStringUTF16 warning], [""], [""], [(-1)%Z]), cs)
            else
              let '(section_start, section_end) :=
                FindSectionBounds form_structure autofill_field
                  is_filling_credit_card in
              let '(labels, icons) :=
                if SectionIsAutoFilled form_structure form section_start section_end
                then (replicate (length labels) "", replicate (length icons) "")
                else (labels, icons) in
              suggestions ← RemoveDuplicateSuggestions values labels icons unique_ids;
              Some (suggestions, cs)
          else Some ((values, labels, icons, unique_ids), cs)
    end.

End forms.

(** ** The form cache and the upload window: ParseForms, OnFormsSeen, Reset,
    UploadFormData *)

Section cache.
Context `{FieldTypes}.

(** The constructor [FormStructure(const FormData&)] and the method
    [ShouldBeParsed(require_method_post)] belong to form_structure.cc. *)
Variable FormStructure_of : FormData → FormStructure.
Variable ShouldBeParsed : FormStructure → bool → bool.

(** The loop of ParseForms over the forms of the page: [form_structures_]
    and the local [non_queryable_forms] grow by [push_back]. *)
Fixpoint ParseForms_loop (forms : list FormData)
    (form_structures_ non_queryable_forms : list FormStructure)
    : list FormStructure * list FormStructure :=
  match forms with
  | [] => (form_structures_, non_queryable_forms)
  | iter :: rest =>
      let form_structure := FormStructure_of iter in
      if negb (ShouldBeParsed form_structure false) then
        ParseForms_loop rest form_structures_ non_queryable_forms
      else if ShouldBeParsed form_structure true then
        ParseForms_loop rest (form_structures_ ++ [form_structure]) non_queryable_forms
      else
        ParseForms_loop rest form_structures_ (non_queryable_forms ++ [form_structure])
  end.

(** ParseForms returns the new [form_structures_] and the forms handed to
    [StartQueryRequest], if the request is made. *)
Definition ParseForms (disable_download_manager_requests_ : bool)
    (form_structures_ : list FormStructure) (forms : list FormData)
    : list FormStructure * option (list FormStructure) :=
  let '(form_structures_, non_queryable_forms) :=
    ParseForms_loop forms form_structures_ [] in
  let query :=
    if negb (is_empty form_structures_) && negb disable_download_manager_requests_
    then Some form_structures_ else None in
  (form_structures_ ++ non_queryable_forms, query).

Definition set_form_structures (m : AutoFillManager) (l : list FormStructure)
    : AutoFillManager :=
  {| IsAutoFillEnabled := IsAutoFillEnabled m;
     has_render_view_host := has_render_view_host m;
     profiles := profiles m;
     credit_cards := credit_cards m;
     form_structures_ := l;
     codec_state := codec_state m |}.

Definition OnFormsSeen (disable_download_manager_requests_ : bool)
    (m : AutoFillManager) (forms : list FormData)
    : AutoFillManager * option (list FormStructure) :=
  if negb (IsAutoFillEnabled m) then (m, None)
  else
    let '(l, query) :=
      ParseForms disable_download_manager_requests_ (form_structures_ m) forms in
    (set_form_structures m l, query).

(** [Reset()], called by DidNavigateMainFramePostCommit. *)
Definition Reset (m : AutoFillManager) : AutoFillManager :=
  set_form_structures m [].

(** Forms worth caching, split by whether they may be sent to the server. *)
Definition queryable (s : FormStructure) : bool :=
  ShouldBeParsed s false && ShouldBeParsed s true.
Definition cached_only (s : FormStructure) : bool :=
  ShouldBeParsed s false && negb (ShouldBeParsed s true).

End cache.

(** The loop of UploadFormData over [autofilled_forms_signatures_]: it
    returns the iterator (the entries not yet visited), the counter and the
    flag. *)
Fixpoint UploadFormData_scan (signature : string) (it : list string)
    (total_form_checked : nat) (was_autofilled : bool)
    : list string * nat * bool :=
  match it with
  | [] => ([], total_form_checked, was_autofilled)
  | s :: it' =>
      if total_form_checked <? 3 then
        UploadFormData_scan signature it' (S total_form_checked)
          (if bool_decide (s = signature) then true else was_autofilled)
      else (it, total_form_checked, was_autofilled)
  end.

(** UploadFormData for a submitted form with the given [FormSignature()]:
    the new [autofilled_forms_signatures_] and the flag passed to
    [StartUploadRequest], if the request is made. *)
Definition UploadFormData (disable_download_manager_requests_ : bool)
    (autofilled_forms_signatures_ : list string) (signature : string)
    : list string * option bool :=
  if negb disable_download_manager_requests_ then
    let '(it, total_form_checked, was_autofilled) :=
      UploadFormData_scan signature autofilled_forms_signatures_ 0 false in
    let kept :=
      if bool_decide (total_form_checked = 3) && negb (is_empty it) then
        take (length autofilled_forms_signatures_ - length it)
             autofilled_forms_signatures_
      else autofilled_forms_signatures_ in
    (kept, Some was_autofilled)
  else (autofilled_forms_signatures_, None).

(** ** Vocabulary for statements about the handlers *)

Section vocabulary.
Context `{FieldTypes}.
Variable IsValidGUID : string → bool.
Variable FormStructure_eq : FormStructure → FormData → bool.
Variable StartsWith : string → string → bool → bool.
Variable CreateInferredLabels :
  list AutoFillProfile → list AutofillFieldType → AutofillFieldType → nat →
  list string.

(** A field takes part in the repeated-type rule when its type is known and
    its group is neither of the two phone groups. *)
Definition counts_as_repeat (fld : AutoFillField) : Prop :=
  current_type_of fld ≠ UNKNOWN_TYPE ∧
  is_phone_group (group (current_type_of fld)) = false.

(** The test a stored credit card has to pass to be suggested, and the
    value shown for it. *)
Definition card_qualifies (field : FormField) (type : AutofillFieldType)
    (credit_card : CreditCard) : bool :=
  negb (bool_decide (CreditCard_GetFieldText credit_card type = "")) &&
  StartsWith (CreditCard_GetFieldText credit_card type) (value field) false.

Definition card_shown_value (type : AutofillFieldType) (credit_card : CreditCard)
    : string :=
  if bool_decide (type = CREDIT_CARD_NUMBER) then ObfuscatedNumber credit_card
  else CreditCard_GetFieldText credit_card type.

Definition profile_qualifies (field : FormField) (type : AutofillFieldType)
    (profile : AutoFillProfile) : bool :=
  negb (bool_decide (AutoFillProfile_GetFieldText profile type = "")) &&
  StartsWith (AutoFillProfile_GetFieldText profile type) (value field) false.

(** Every id of [ids] decodes, in every later codec state within the 16-bit
    bound, to the pair that [guids_of] gives for the record at the same
    position. *)
Definition ids_decode {R} (guids_of : R → string * string) (cs : CodecState)
    (ids : list Z) (records : list R) : Prop :=
  Forall2 (λ id r, ∀ s', codec_steps IsValidGUID cs s' →
                         (last_id s' ≤ ushort_max + 1)%Z →
                         UnpackGUIDs s' id = guids_of r) ids records.

(** The vectors assembled for the cached field before any post-processing. *)
Definition assembled_suggestions (m : AutoFillManager) (form_structure : FormStructure)
    (field : FormField) (cached_field : AutoFillField) : Suggestions * CodecState :=
  if bool_decide (group (type cached_field) = CREDIT_CARD)
  then GetCreditCardSuggestions IsValidGUID StartsWith m field (type cached_field)
  else GetProfileSuggestions IsValidGUID StartsWith CreateInferredLabels m
         form_structure field (type cached_field).

(** Four vectors of one length. *)
Definition aligned (s : Suggestions) : Prop :=
  length s.1.1.2 = length s.1.1.1 ∧ length s.1.2 = length s.1.1.1 ∧
  length s.2 = length s.1.1.1.

(** The user is editing a field of a section that is already filled. *)
Definition editing_filled_section (form_structure : FormStructure) (form : FormData)
    (autofill_field : nat) (cached_field : AutoFillField) : bool :=
  let cc := bool_decide (group (type cached_field) = CREDIT_CARD) in
  SectionIsAutoFilled form_structure form
    (FindSectionBounds form_structure autofill_field cc).1
    (FindSectionBounds form_structure autofill_field cc).2.

(** The query is answered with suggestions, not with a warning. *)
Record query_allowed (m : AutoFillManager) (form : FormData) (field : FormField)
    (form_structure : FormStructure) (autofill_field : nat)
    (cached_field : AutoFillField) : Prop := {
  allowed_host : GetHost m = true;
  allowed_cached :
    FindCachedFormAndField FormStructure_eq m form field
      = Some (form_structure, autofill_field);
  allowed_field : fields form_structure !! autofill_field = Some cached_field;
  allowed_any_method : IsAutoFillable form_structure false = true;
  allowed_post : IsAutoFillable form_structure true = true;
  allowed_secure :
    group (type cached_field) = CREDIT_CARD → FormIsHTTPS form_structure = true
}.

End vocabulary.

(** ** A small concrete type table for examples *)

Module Demo.

Inductive FieldType :=
  | UNKNOWN | NAME_FULL | ADDRESS_HOME_CITY | PHONE_HOME_NUMBER
  | CARD_NUMBER | CARD_EXP_MONTH | CARD_EXP_4_DIGIT_YEAR.

Global Instance FieldType_eq_dec : EqDecision FieldType.
Proof. solve_decision. Defined.

Definition FieldType_to_nat (t : FieldType) : nat :=
  match t with
  | UNKNOWN => 0 | NAME_FULL => 1 | ADDRESS_HOME_CITY => 2
  | PHONE_HOME_NUMBER => 3 | CARD_NUMBER => 4 | CARD_EXP_MONTH => 5
  | CARD_EXP_4_DIGIT_YEAR => 6
  end%nat.

Definition FieldType_of_nat (n : nat) : FieldType :=
  match n with
  | 1 => NAME_FULL | 2 => ADDRESS_HOME_CITY | 3 => PHONE_HOME_NUMBER
  | 4 => CARD_NUMBER | 5 => CARD_EXP_MONTH | 6 => CARD_EXP_4_DIGIT_YEAR
  | _ => UNKNOWN
  end%nat.

Global Instance FieldType_countable : Countable FieldType.
Proof.
  apply (inj_countable' FieldType_to_nat FieldType_of_nat). by intros [].
Defined.

Definition FieldType_group (t : FieldType) : FieldTypeGroup :=
  match t with
  | UNKNOWN => NO_GROUP
  | NAME_FULL => CONTACT_INFO
  | ADDRESS_HOME_CITY => ADDRESS_HOME
  | PHONE_HOME_NUMBER => PHONE_HOME
  | CARD_NUMBER | CARD_EXP_MONTH | CARD_EXP_4_DIGIT_YEAR => CREDIT_CARD
  end.

Global Instance field_types : FieldTypes := {|
  AutofillFieldType := FieldType;
  UNKNOWN_TYPE := UNKNOWN;
  CREDIT_CARD_NUMBER := CARD_NUMBER;
  CREDIT_CARD_EXP_MONTH := CARD_EXP_MONTH;
  CREDIT_CARD_EXP_4_DIGIT_YEAR := CARD_EXP_4_DIGIT_YEAR;
  GetEquivalentFieldType := λ t, t;
  group := FieldType_group;
  subgroup_is_PHONE_NUMBER := λ t, bool_decide (t = PHONE_HOME_NUMBER)
|}.

Definition text_field (n : string) : FormField :=
  {| label := n; name := n; value := ""; form_control_type := "text";
     max_length := 0%Z; is_autofilled := false |}.

Definition cached (n : string) (t : FieldType) : AutoFillField :=
  {| form_field := text_field n; type := t |}.

Definition form_of (l : list AutoFillField) : FormStructure :=
  {| fields := l; source_url_scheme := "https"; IsAutoFillable := λ _, true;
     autofill_count :=
       length (filter (λ c, type c ≠ UNKNOWN) l) |}.

(** Scenario A. *)
Definition checkout_form : FormStructure :=
  form_of [cached "name" NAME_FULL; cached "city" ADDRESS_HOME_CITY;
           cached "card" CARD_NUMBER; cached "month" CARD_EXP_MONTH;
           cached "year" CARD_EXP_4_DIGIT_YEAR].

End Demo.

(** ** The filter of RemoveDuplicateSuggestions, row by row *)

(** One suggestion: the entries of the four vectors at one index. *)
Definition Row : Type := string * string * string * Z.

Definition row_key (r : Row) : string * string := (r.1.1.1, r.1.1.2).

Fixpoint zip4 (values labels icons : list string) (unique_ids : list Z) : list Row :=
  match values, labels, icons, unique_ids with
  | v :: values', l :: labels', ic :: icons', u :: unique_ids' =>
      (v, l, ic, u) :: zip4 values' labels' icons' unique_ids'
  | _, _, _, _ => []
  end.

Definition unzip4 (rows : list Row)
    : list string * list string * list string * list Z :=
  ((λ r : Row, r.1.1.1) <$> rows, (λ r : Row, r.1.1.2) <$> rows,
   (λ r : Row, r.1.2) <$> rows, (λ r : Row, r.2) <$> rows).

(** The loop seen row by row, without the copies. *)
Fixpoint dedup_rows (seen : gset (string * string)) (rows : list Row) : list Row :=
  match rows with
  | [] => []
  | r :: rest =>
      if bool_decide (row_key r ∈ seen) then dedup_rows seen rest
      else r :: dedup_rows ({[ row_key r ]} ∪ seen) rest
  end.

(** ** Example data *)

(** A stand-in for [guid::IsValidGUID]: every non-empty string counts as a
    valid GUID. *)
Definition demo_IsValidGUID (g : string) : bool := negb (String.eqb g "").

(** Scenario C: a profile that stores the phone number "5551234567". *)
Definition phone_profile : AutoFillProfile :=
  {| AutoFillProfile_guid := "guid-A";
     AutoFillProfile_GetFieldText := λ _, "5551234567" |}.

Definition phone_box (n : Z) : FormField :=
  {| label := "phone"; name := "phone"; value := ""; form_control_type := "text";
     max_length := n; is_autofilled := false |}.

Definition expiring_card : CreditCard :=
  {| CreditCard_guid := "guid-C";
     CreditCard_GetFieldText := λ t,
       match t with
       | Demo.CARD_EXP_4_DIGIT_YEAR => "2012"
       | Demo.CARD_EXP_MONTH => "04"
       | _ => ""
       end;
     ObfuscatedNumber := "************1111";
     LastFourDigits := "1111";
     CreditCard_type := "visaCC" |}.

Definition month_box : FormField :=
  {| label := "exp"; name := "exp"; value := ""; form_control_type := "month";
     max_length := 0%Z; is_autofilled := false |}.

(** An initiating field of unknown type is skipped by the scan before the
    pointer comparison, so later section breaks move the start past it. *)
Definition unknown_first_form : FormStructure :=
  Demo.form_of [Demo.cached "extra" Demo.UNKNOWN;
                Demo.cached "name" Demo.NAME_FULL;
                Demo.cached "name2" Demo.NAME_FULL].

Definition two_field_form : FormStructure :=
  Demo.form_of [Demo.cached "a" Demo.NAME_FULL; Demo.cached "b" Demo.NAME_FULL].

Definition three_field_form : FormStructure :=
  Demo.form_of [Demo.cached "a" Demo.NAME_FULL; Demo.cached "b" Demo.ADDRESS_HOME_CITY;
                Demo.cached "c" Demo.PHONE_HOME_NUMBER].

Definition autofilled_field (n : string) : FormField :=
  {| label := n; name := n; value := "x"; form_control_type := "text";
     max_length := 0%Z; is_autofilled := true |}.

Definition live_form (l : list FormField) : FormData :=
  {| form_name := "form"; form_fields := l |}.

Definition no_select {R}
    : R → @AutofillFieldType Demo.field_types → FormField → FormField :=
  λ _ _ f, f.

(** A manager that knows one profile and one credit card, has cached
    [two_field_form] and has already handed out the id 1 for "guid-A". *)
Definition demo_manager (cached_forms : list FormStructure) : AutoFillManager :=
  {| IsAutoFillEnabled := true;
     has_render_view_host := true;
     profiles := [phone_profile];
     credit_cards := [expiring_card];
     form_structures_ := cached_forms;
     codec_state := (PackGUIDs demo_IsValidGUID codec_init "" "guid-A").2 |}.

Definition any_form : FormStructure → FormData → bool := λ _ _, true.

(** A form served over http whose field "card" is a credit card number. *)
Definition insecure_checkout : FormStructure :=
  {| fields := [Demo.cached "card" Demo.CARD_NUMBER];
     source_url_scheme := "http";
     IsAutoFillable := λ _, true;
     autofill_count := 1 |}.

Definition numbered_card : CreditCard :=
  {| CreditCard_guid := "guid-C";
     CreditCard_GetFieldText := λ _, "4111111111111111";
     ObfuscatedNumber := "************1111";
     LastFourDigits := "1111";
     CreditCard_type := "visaCC" |}.

Definition card_manager : AutoFillManager :=
  {| IsAutoFillEnabled := true;
     has_render_view_host := true;
     profiles := [];
     credit_cards := [numbered_card];
     form_structures_ := [insecure_checkout];
     codec_state := codec_init |}.

Definition any_prefix : string → string → bool → bool := λ _ _ _, true.
Definition no_labels
    : list AutoFillProfile → list (@AutofillFieldType Demo.field_types) →
      @AutofillFieldType Demo.field_types → nat → list string :=
  λ _ _ _ _, [].
Definition warning_text (id : Z) : string :=
  if bool_decide (id = 101%Z) then "form disabled" else "insecure connection".

(** A label step that returns one empty label per profile. *)
Definition blank_labels
    : list AutoFillProfile → list (@AutofillFieldType Demo.field_types) →
      @AutofillFieldType Demo.field_types → nat → list string :=
  λ ps _ _ _, replicate (length ps) "".

(** * Properties *)

Local Open Scope Z_scope.

(** ** The bit layout of a packed id *)

Lemma wrap_int_range z : - 2 ^ 31 ≤ wrap_int z < 2 ^ 31.
Proof.
  unfold wrap_int. pose proof (Z.mod_pos_bound (z + 2 ^ 31) (2 ^ 32)). lia.
Qed.

Lemma wrap_int_small z : - 2 ^ 31 ≤ z < 2 ^ 31 → wrap_int z = z.
Proof. intros H. unfold wrap_int. rewrite Z.mod_small; lia. Qed.

(** The shifted credit card id, wrapped to [int], is still a multiple of
    2^16: only the sign of the high word changes. *)
Lemma wrap_int_shiftl_16 c :
  0 ≤ c ≤ ushort_max →
  ∃ c', wrap_int (Z.shiftl c ushort_digits) = c' * 65536 ∧
        c' mod 65536 = c ∧ -32768 ≤ c' < 32768.
Proof.
  unfold ushort_max, ushort_digits. intros Hc.
  rewrite Z.shiftl_mul_pow2 by lia. change (2 ^ 16) with 65536.
  destruct (Z_lt_dec c 32768) as [Hlt|Hge].
  - exists c. rewrite wrap_int_small by lia.
    split; [done|]. rewrite Z.mod_small; lia.
  - exists (c - 65536). unfold wrap_int. split; [|split; [|lia]].
    + replace (c * 65536 + 2 ^ 31) with ((c * 65536 - 2 ^ 31) + 1 * 2 ^ 32) by lia.
      rewrite Z.mod_add by lia. rewrite Z.mod_small; lia.
    + replace (c - 65536) with (c + (-1) * 65536) by lia.
      rewrite Z.mod_add by lia. rewrite Z.mod_small; lia.
Qed.

(** Or-ing a 16-bit value into a multiple of 2^16 adds it. *)
Lemma lor_high_low c p :
  0 ≤ p ≤ ushort_max → Z.lor (c * 65536) p = c * 65536 + p.
Proof.
  unfold ushort_max. intros Hp.
  assert (Z.land (c * 65536) p = 0) as Hdisj.
  { apply Z.bits_inj'. intros n Hn. rewrite Z.land_spec, Z.bits_0.
    change 65536 with (2 ^ 16). rewrite <- Z.shiftl_mul_pow2 by lia.
    destruct (Z_lt_dec n 16) as [Hlt|Hge].
    - by rewrite Z.shiftl_spec_low by lia.
    - apply andb_false_intro2.
      destruct (Z.eq_dec p 0) as [->|Hp0]; [apply Z.bits_0|].
      apply Z.bits_above_log2; [lia|].
      assert (Z.log2 p < 16) by (apply Z.log2_lt_pow2; lia). lia. }
  rewrite <- Z.lxor_lor by done. symmetry. by apply Z.add_nocarry_lxor.
Qed.

(** The bit layout of a packed id: credit card id in the high word, profile
    id in the low word, and the result is a representable [int]. *)
Lemma pack_bits c p :
  0 ≤ c ≤ ushort_max → 0 ≤ p ≤ ushort_max →
  let id := Z.lor (wrap_int (Z.shiftl c ushort_digits)) p in
  Z.land (Z.shiftr id ushort_digits) ushort_max = c ∧
  Z.land id ushort_max = p ∧
  - 2 ^ 31 ≤ id < 2 ^ 31.
Proof.
  intros Hc Hp. destruct (wrap_int_shiftl_16 c Hc) as (c' & Hw & Hmod & Hr).
  simpl. rewrite Hw, lor_high_low by done.
  unfold ushort_max, ushort_digits in *.
  change 65535 with (Z.ones 16). rewrite !Z.land_ones by lia.
  rewrite Z.shiftr_div_pow2 by lia. change (2 ^ 16) with 65536.
  assert ((c' * 65536 + p) `div` 65536 = c') as ->.
  { symmetry. apply (Z.div_unique _ _ _ p); lia. }
  split; [done|]. split; [|lia].
  rewrite Z.add_comm, Z.mod_add by lia. apply Z.mod_small. lia.
Qed.

(** The largest credit card id sets the sign bit of the packed [int]; the
    arithmetic shift and the mask still give both halves back. *)
Example pack_bits_sign_bit :
  Z.lor (wrap_int (Z.shiftl 65535 ushort_digits)) 7 = -65529 ∧
  Z.land (Z.shiftr (-65529) ushort_digits) ushort_max = 65535 ∧
  Z.land (-65529) ushort_max = 7.
Proof. vm_compute. by split_and!. Qed.

(** ** Identifier codec: the round trip *)

Section codec_facts.
Variable IsValidGUID : string → bool.

Abbreviation GUIDToID := (GUIDToID IsValidGUID).
Abbreviation PackGUIDs := (PackGUIDs IsValidGUID).
Abbreviation codec_step := (codec_step IsValidGUID).
Abbreviation codec_steps := (codec_steps IsValidGUID).
Abbreviation codec_reachable := (codec_reachable IsValidGUID).
Abbreviation optional_guid := (optional_guid IsValidGUID).
Abbreviation decoded_guid := (decoded_guid IsValidGUID).

Lemma codec_init_inv : codec_inv codec_init.
Proof. split; simpl; [lia| |]; intros ?? H; by rewrite lookup_empty in H. Qed.

Lemma codec_extends_refl s : codec_extends s s.
Proof. split; [lia|done]. Qed.

Lemma codec_extends_trans s1 s2 s3 :
  codec_extends s1 s2 → codec_extends s2 s3 → codec_extends s1 s3.
Proof. intros [? ?] [? ?]. split; [lia|by etrans]. Qed.

(** What one call of [GUIDToID] returns and what it does to the state. *)
Lemma GUIDToID_spec s g :
  codec_inv s →
  let '(id, s') := GUIDToID s g in
  codec_inv s' ∧ codec_extends s s' ∧
  ((IsValidGUID g = false ∧ id = 0 ∧ s' = s) ∨
   (IsValidGUID g = true ∧ id_guid_map s' !! id = Some g ∧ 1 ≤ id < last_id s')).
Proof.
  intros Hinv. unfold GUIDToID.
  destruct (IsValidGUID g) eqn:Hv; simpl.
  2: { split; [done|]. split; [apply codec_extends_refl|]. by left. }
  destruct (guid_id_map s !! g) as [id|] eqn:Hg.
  - split; [done|]. split; [apply codec_extends_refl|]. right.
    pose proof (inv_back _ Hinv _ _ Hg) as Hb.
    split; [done|]. split; [done|]. by eapply inv_ids_below.
  - pose proof (inv_last_pos _ Hinv) as Hpos.
    assert (id_guid_map s !! last_id s = None) as Hfresh.
    { destruct (id_guid_map s !! last_id s) as [g'|] eqn:E; [|done].
      pose proof (inv_ids_below _ Hinv _ _ E). lia. }
    split; [|split].
    + split; simpl.
      * lia.
      * intros id g' Hl. destruct (decide (last_id s = id)) as [<-|Hne]; [lia|].
        rewrite lookup_insert_ne in Hl by done.
        pose proof (inv_ids_below _ Hinv _ _ Hl). lia.
      * intros g' id Hl. destruct (decide (g = g')) as [<-|Hne].
        -- rewrite lookup_insert_eq in Hl. injection Hl as <-.
           by rewrite lookup_insert_eq.
        -- rewrite lookup_insert_ne in Hl by done.
           pose proof (inv_back _ Hinv _ _ Hl) as Hb.
           rewrite lookup_insert_ne; [done|]. intros <-. congruence.
    + split; simpl; [lia|]. by apply insert_subseteq.
    + right. split; [done|]. simpl. rewrite lookup_insert_eq. split; [done|lia].
Qed.

Lemma PackGUIDs_spec s cc_guid profile_guid :
  codec_inv s →
  codec_inv (PackGUIDs s cc_guid profile_guid).2 ∧
  codec_extends s (PackGUIDs s cc_guid profile_guid).2.
Proof.
  intros Hinv. unfold PackGUIDs.
  pose proof (GUIDToID_spec s cc_guid Hinv) as H1.
  destruct (GUIDToID s cc_guid) as [cc_id s1]. destruct H1 as (Hinv1 & Hext1 & _).
  pose proof (GUIDToID_spec s1 profile_guid Hinv1) as H2.
  destruct (GUIDToID s1 profile_guid) as [profile_id s2].
  destruct H2 as (Hinv2 & Hext2 & _). simpl.
  split; [done|]. by eapply codec_extends_trans.
Qed.

Lemma codec_step_spec s s' :
  codec_step s s' → codec_inv s → codec_inv s' ∧ codec_extends s s'.
Proof.
  intros Hstep Hinv. destruct Hstep as [s cc p|s n Hn].
  - by apply PackGUIDs_spec.
  - destruct Hinv as [Hpos Hbelow Hback]. split; [split|split]; simpl; try done; try lia.
    intros id g Hl. specialize (Hbelow _ _ Hl). lia.
Qed.

Lemma codec_steps_spec s s' :
  codec_steps s s' → codec_inv s → codec_inv s' ∧ codec_extends s s'.
Proof.
  induction 1 as [s|s1 s2 s3 Hstep _ IH]; intros Hinv.
  - split; [done|apply codec_extends_refl].
  - destruct (codec_step_spec _ _ Hstep Hinv) as [Hinv2 Hext2].
    destruct (IH Hinv2) as [Hinv3 Hext3].
    split; [done|]. by eapply codec_extends_trans.
Qed.

Lemma codec_reachable_inv s : codec_reachable s → codec_inv s.
Proof. intros H. by apply (codec_steps_spec _ _ H codec_init_inv). Qed.

(** An id handed out earlier still decodes to its string later on. *)
Lemma IDToGUID_later s s' id g :
  codec_extends s s' → id_guid_map s !! id = Some g → 1 ≤ id →
  IDToGUID s' id = g.
Proof.
  intros [_ Hsub] Hl Hpos. unfold IDToGUID.
  destruct (decide (id = 0)) as [->|_]; [lia|].
  by rewrite (lookup_weaken _ _ _ _ Hl Hsub).
Qed.

Lemma GUIDToID_decodes s g s' :
  codec_inv s →
  codec_extends (GUIDToID s g).2 s' →
  IDToGUID s' (GUIDToID s g).1 = decoded_guid g ∧
  0 ≤ (GUIDToID s g).1 < last_id s'.
Proof.
  intros Hinv Hext. pose proof (GUIDToID_spec s g Hinv) as H.
  destruct (GUIDToID s g) as [id s1]. simpl in *.
  destruct H as (Hinv1 & _ & [(Hv & -> & ->)|(Hv & Hl & Hr)]); unfold decoded_guid; rewrite Hv.
  - split; [done|]. destruct Hext as [? _]. pose proof (inv_last_pos _ Hinv). lia.
  - split; [by eapply IDToGUID_later; [done|done|lia]|].
    destruct Hext as [? _]. lia.
Qed.

(** Packing places the credit card id in the high word and the profile id
    in the low word, and unpacking reads both back, for any two strings and
    any later state in which every id still fits 16 bits. *)
Lemma pack_unpack_general s cc_guid profile_guid s' :
  codec_inv s →
  codec_steps (PackGUIDs s cc_guid profile_guid).2 s' →
  last_id s' ≤ ushort_max + 1 →
  let id := (PackGUIDs s cc_guid profile_guid).1 in
  let cc_id := (GUIDToID s cc_guid).1 in
  let profile_id := (GUIDToID (GUIDToID s cc_guid).2 profile_guid).1 in
  UnpackGUIDs s' id = (decoded_guid cc_guid, decoded_guid profile_guid) ∧
  Z.land (Z.shiftr id ushort_digits) ushort_max = cc_id ∧
  Z.land id ushort_max = profile_id ∧
  0 ≤ cc_id ≤ ushort_max ∧ 0 ≤ profile_id ≤ ushort_max ∧
  - 2 ^ 31 ≤ id < 2 ^ 31.
Proof.
  intros Hinv Hsteps Hbound.
  pose proof (GUIDToID_spec s cc_guid Hinv) as H1.
  unfold PackGUIDs in *.
  destruct (GUIDToID s cc_guid) as [cc_id s1] eqn:E1.
  destruct H1 as (Hinv1 & Hext1 & _).
  pose proof (GUIDToID_spec s1 profile_guid Hinv1) as H2.
  destruct (GUIDToID s1 profile_guid) as [profile_id s2] eqn:E2.
  destruct H2 as (Hinv2 & Hext2 & _). simpl in *.
  destruct (codec_steps_spec _ _ Hsteps Hinv2) as [Hinv' Hext'].
  pose proof (GUIDToID_decodes s cc_guid s' Hinv) as Hcc.
  rewrite E1 in Hcc. simpl in Hcc.
  destruct Hcc as [Hcc Hccr]; [by eapply codec_extends_trans|].
  pose proof (GUIDToID_decodes s1 profile_guid s' Hinv1) as Hp.
  rewrite E2 in Hp. simpl in Hp. destruct Hp as [Hp Hpr]; [done|].
  assert (0 ≤ cc_id ≤ ushort_max) as Hc16 by (unfold ushort_max in *; lia).
  assert (0 ≤ profile_id ≤ ushort_max) as Hp16 by (unfold ushort_max in *; lia).
  destruct (pack_bits cc_id profile_id Hc16 Hp16) as (Hhigh & Hlow & Hrange).
  unfold UnpackGUIDs. rewrite Hhigh, Hlow, Hcc, Hp, E2. simpl.
  repeat split; (done || lia).
Qed.


End codec_facts.


Local Close Scope Z_scope.

(** ** Section resolver: properties of FindSectionBounds *)

Section section_bounds.
Context `{FieldTypes}.
Implicit Types (st : SectionScan) (rest pre : list AutoFillField).

(** Every way one iteration can end. *)
Lemma FindSectionBounds_body_spec field cc i cur st :
  match FindSectionBounds_body field cc i cur st with
  | Break st' =>
      initiating_field_is_in_current_section st = true ∧
      current_type_of cur ≠ UNKNOWN_TYPE ∧
      section_start st' = section_start st ∧ section_end st' = i ∧
      initiating_field_is_in_current_section st' = true
  | Continue st' =>
      section_end st' = section_end st ∧
      ((current_type_of cur = UNKNOWN_TYPE ∧ st' = st) ∨
       (current_type_of cur ≠ UNKNOWN_TYPE ∧ appropriate cc cur = true ∧
        (section_start st' = section_start st ∨
         (section_start st' = i ∧
          initiating_field_is_in_current_section st = false)) ∧
        initiating_field_is_in_current_section st' =
          (bool_decide (i = field) || initiating_field_is_in_current_section st)) ∨
       (current_type_of cur ≠ UNKNOWN_TYPE ∧ appropriate cc cur = false ∧
        initiating_field_is_in_current_section st = false ∧
        section_start st' = S i ∧
        initiating_field_is_in_current_section st' = false))
  end.
Proof.
  unfold FindSectionBounds_body, appropriate, current_type_of.
  set (t := GetEquivalentFieldType (type cur)).
  destruct (bool_decide (t = UNKNOWN_TYPE)) eqn:Hu.
  { apply bool_decide_eq_true in Hu. split; [done|]. by left. }
  apply bool_decide_eq_false in Hu.
  set (ok := eqb (bool_decide (group t = CREDIT_CARD)) cc).
  set (saw := if is_phone_group (group t) then false
              else bool_decide (t ∈ seen_types st)).
  destruct (initiating_field_is_in_current_section st) eqn:Hin;
    destruct ok eqn:Hok; destruct saw eqn:Hsaw; simpl;
    repeat case_bool_decide; simpl; split_and?; try done;
    try (right; left; split_and?; try done; by (left + right));
    try (right; right; split_and?; try done; lia).
Qed.

(** Once the initiating field is in the current section, the start is
    final and the end can only be set at or after the current index. *)
Lemma FindSectionBounds_loop_after field cc rest : ∀ i st,
  initiating_field_is_in_current_section st = true →
  let st' := FindSectionBounds_loop field cc i rest st in
  section_start st' = section_start st ∧
  initiating_field_is_in_current_section st' = true ∧
  (section_end st' = section_end st ∨ (i ≤ section_end st')%nat).
Proof.
  induction rest as [|cur rest IH]; intros i st Hin; simpl.
  { split_and!; try done. by left. }
  pose proof (FindSectionBounds_body_spec field cc i cur st) as Hb.
  destruct (FindSectionBounds_body field cc i cur st) as [st1|st1].
  - destruct Hb as (Hend & Hcases).
    assert (section_start st1 = section_start st ∧
            initiating_field_is_in_current_section st1 = true) as [Hs1 Hin1].
    { destruct Hcases as [(_ & ->)|[(_ & _ & Hs & Hi)|(_ & _ & Hf & _)]].
      - done.
      - rewrite Hi, Hin, orb_true_r. split; [|done].
        destruct Hs as [?|[_ ?]]; [done|congruence].
      - congruence. }
    destruct (IH (S i) st1 Hin1) as (Hs' & Hin' & He').
    split_and!; [congruence|done|].
    destruct He' as [He'|He']; [left; congruence|right; lia].
  - destruct Hb as (_ & _ & Hs & He & Hi). split_and!; try done. right. lia.
Qed.

(** Before the initiating field is reached the scan never breaks, and it
    enters the section at the initiating field itself. *)
Lemma FindSectionBounds_loop_before field cc fld rest : ∀ pre st,
  (length pre ≤ field)%nat →
  (pre ++ rest) !! field = Some fld →
  current_type_of fld ≠ UNKNOWN_TYPE →
  appropriate cc fld = true →
  initiating_field_is_in_current_section st = false →
  (section_start st ≤ length pre)%nat →
  section_end st = length (pre ++ rest) →
  let st' := FindSectionBounds_loop field cc (length pre) rest st in
  (section_start st' ≤ field < section_end st')%nat ∧
  initiating_field_is_in_current_section st' = true.
Proof.
  induction rest as [|cur rest IH]; intros pre st Hle Hlook Hknown Hok Hin Hstart Hend.
  { apply lookup_lt_Some in Hlook. rewrite app_nil_r in Hlook. lia. }
  simpl.
  pose proof (FindSectionBounds_body_spec field cc (length pre) cur st) as Hb.
  destruct (FindSectionBounds_body field cc (length pre) cur st) as [st1|st1];
    [|destruct Hb as (? & _); congruence].
  destruct Hb as (Hend1 & Hcases).
  pose proof (lookup_lt_Some _ _ _ Hlook) as Hlt.
  destruct (decide (length pre = field)) as [Heq|Hne].
  - assert (cur = fld) as ->.
    { rewrite lookup_app_r in Hlook by lia.
      replace (field - length pre)%nat with 0%nat in Hlook by lia.
      by injection Hlook. }
    destruct Hcases as [(? & _)|[(_ & _ & Hs & Hi)|(_ & ? & _)]];
      [done| |congruence].
    rewrite bool_decide_eq_true_2 in Hi by done. simpl in Hi.
    destruct (FindSectionBounds_loop_after field cc rest (S (length pre)) st1 Hi)
      as (Hs' & Hin' & He').
    split; [|done]. rewrite Hs'. split; [destruct Hs as [->|[-> _]]; lia|].
    destruct He' as [->|?]; lia.
  - specialize (IH (pre ++ [cur]) st1).
    rewrite length_app in IH. simpl in IH.
    replace (length pre + 1)%nat with (S (length pre)) in IH by lia.
    rewrite <- app_assoc in IH. simpl in IH.
    apply IH; try done; try lia.
    + destruct Hcases as [(_ & ->)|[(_ & _ & _ & Hi)|(_ & _ & _ & _ & ?)]];
        [done| |done].
      rewrite Hi, Hin. by rewrite bool_decide_eq_false_2.
    + destruct Hcases as [(_ & ->)|[(_ & _ & Hs & _)|(_ & _ & _ & Hs & _)]];
        [lia| |lia].
      destruct Hs as [->|[-> _]]; lia.
Qed.

(** Where the closing DCHECK holds. For every cached form and every field of
    it whose type is known and whose group suits the data being filled (a
    credit card field when filling a credit card, any other field when
    filling a profile), the range returned by FindSectionBounds contains the
    index of that field, and [initiating_field_is_in_current_section] is
    true at the end of the scan. *)
Theorem FindSectionBounds_contains_field form field cc fld :
  fields form !! field = Some fld →
  current_type_of fld ≠ UNKNOWN_TYPE →
  appropriate cc fld = true →
  (FindSectionBounds form field cc).1 ≤ field < (FindSectionBounds form field cc).2 ∧
  FindSectionBounds_found form field cc = true.
Proof.
  intros Hlook Hknown Hok.
  unfold FindSectionBounds, FindSectionBounds_found, FindSectionBounds_scan. simpl.
  by apply (FindSectionBounds_loop_before field cc fld (fields form) []);
    simpl; try lia.
Qed.

(** Every known-typed field between the current start and the current
    index suits the data being filled; the scan keeps this true. *)
Lemma FindSectionBounds_loop_exclusive field cc rest : ∀ pre st,
  section_end st = length (pre ++ rest) →
  (∀ j fld, section_start st ≤ j < length pre →
            (pre ++ rest) !! j = Some fld →
            current_type_of fld ≠ UNKNOWN_TYPE → appropriate cc fld = true) →
  let st' := FindSectionBounds_loop field cc (length pre) rest st in
  ∀ j fld, section_start st' ≤ j < section_end st' →
           (pre ++ rest) !! j = Some fld →
           current_type_of fld ≠ UNKNOWN_TYPE → appropriate cc fld = true.
Proof.
  induction rest as [|cur rest IH]; intros pre st Hend Hinv; simpl.
  { intros j fld Hj. apply Hinv. rewrite Hend, app_nil_r in Hj. done. }
  pose proof (FindSectionBounds_body_spec field cc (length pre) cur st) as Hb.
  assert ((pre ++ cur :: rest) !! length pre = Some cur) as Hcur.
  { rewrite lookup_app_r by lia. by rewrite Nat.sub_diag. }
  destruct (FindSectionBounds_body field cc (length pre) cur st) as [st1|st1].
  - destruct Hb as (Hend1 & Hcases).
    specialize (IH (pre ++ [cur]) st1).
    assert (length (pre ++ [cur]) = S (length pre)) as Hlen
      by (rewrite length_app; simpl; lia).
    rewrite <- app_assoc in IH. simpl in IH. rewrite Hlen in IH.
    apply IH; [congruence|].
    intros j fld Hj Hlook Hknown.
    destruct (decide (j = length pre)) as [->|Hne].
    + assert (fld = cur) as -> by congruence.
      destruct Hcases as [(? & _)|[(_ & ? & _)|(_ & _ & _ & Hs & _)]];
        [done|done|lia].
    + apply (Hinv j fld); [|done|done].
      destruct Hcases as [(_ & ->)|[(_ & _ & Hs & _)|(_ & _ & _ & Hs & _)]];
        [lia| |lia].
      destruct Hs as [Hs|[Hs _]]; lia.
  - destruct Hb as (_ & _ & Hs & He & _).
    intros j fld Hj. apply Hinv. by rewrite <- Hs, <- He.
Qed.

(** C8. In the range returned by FindSectionBounds every field of known
    type is a credit card field when filling a credit card, and is not a
    credit card field when filling a profile. The type meant is the one the
    scan inspects, [GetEquivalentFieldType] of the field's type. *)
Theorem FindSectionBounds_exclusive form field cc j fld :
  (FindSectionBounds form field cc).1 ≤ j < (FindSectionBounds form field cc).2 →
  fields form !! j = Some fld →
  current_type_of fld ≠ UNKNOWN_TYPE →
  (cc = true → group (current_type_of fld) = CREDIT_CARD) ∧
  (cc = false → group (current_type_of fld) ≠ CREDIT_CARD).
Proof.
  intros Hj Hlook Hknown.
  assert (appropriate cc fld = true) as Hok.
  { unfold FindSectionBounds, FindSectionBounds_scan in Hj. simpl in Hj.
    eapply (FindSectionBounds_loop_exclusive field cc (fields form) []);
      simpl; [| |exact Hj|exact Hlook|exact Hknown]; simpl; [done|].
    intros j' ? [_ Hlt]. inversion Hlt. }
  unfold appropriate in Hok. apply eqb_prop in Hok.
  split; intros ->.
  - by apply bool_decide_eq_true in Hok.
  - by apply bool_decide_eq_false in Hok.
Qed.

End section_bounds.

(** *** Concrete runs of the section resolver *)

(** Scenario A. *)
Example scenario_A : FindSectionBounds Demo.checkout_form 2 true = (2, 5)%nat.
Proof. vm_compute. reflexivity. Qed.

Example scenario_A_identity : FindSectionBounds Demo.checkout_form 0 false = (0, 2)%nat.
Proof. vm_compute. reflexivity. Qed.

Example FindSectionBounds_unknown_field :
  FindSectionBounds unknown_first_form 0 false = (2, 3) ∧
  FindSectionBounds_found unknown_first_form 0 false = false.
Proof. vm_compute. split; reflexivity. Qed.

(** A credit card field is never part of a profile section. *)
Example FindSectionBounds_wrong_flag :
  FindSectionBounds Demo.checkout_form 2 false = (5, 5) ∧
  FindSectionBounds_found Demo.checkout_form 2 false = false.
Proof. vm_compute. split; reflexivity. Qed.

(** Containment does not hold for every field of a form: the range need not
    contain the index of a field of unknown type. *)
Lemma FindSectionBounds_contains_any_field_fails :
  ¬ (∀ (form : FormStructure) (field : nat) (cc : bool),
       field < field_count form →
       (FindSectionBounds form field cc).1 ≤ field
         < (FindSectionBounds form field cc).2).
Proof.
  intros Hclaim.
  specialize (Hclaim unknown_first_form 0 false).
  vm_compute in Hclaim. lia.
Qed.

(** C2. The code at the failing input. The cached form is "extra" (of
    unknown type), "name", "name2" (both full names), and a fill with the
    stored profile is requested from the field "extra". The handler resolves
    the live field to index 0 and the unique id to the profile, so
    FindSectionBounds runs on index 0 with the flag false. The scan skips the
    field of unknown type before the pointer comparison: the returned range
    is [2, 3), it does not contain index 0, the condition of the closing
    [DCHECK(initiating_field_is_in_current_section)] is false, and the reply
    fills "name2" only, not the "name" field next to the initiating one. *)
Theorem FindSectionBounds_misses_unknown_field :
  let m := demo_manager [unknown_first_form] in
  let form := live_form [Demo.text_field "extra"; Demo.text_field "name";
                         Demo.text_field "name2"] in
  FindCachedFormAndField any_form m form (Demo.text_field "extra")
    = Some (unknown_first_form, 0) ∧
  UnpackGUIDs (codec_state m) 1%Z = ("", "guid-A") ∧
  FindSectionBounds unknown_first_form 0 false = (2, 3) ∧
  ¬ ((FindSectionBounds unknown_first_form 0 false).1 ≤ 0
       < (FindSectionBounds unknown_first_form 0 false).2) ∧
  FindSectionBounds_found unknown_first_form 0 false = false ∧
  OnFillAutoFillFormData no_select no_select demo_IsValidGUID any_form m form
    (Demo.text_field "extra") 1%Z
  = Some (FormDataFilled
            (live_form [Demo.text_field "extra"; Demo.text_field "name";
                        set_value (Demo.text_field "name2") "5551234567"])).
Proof.
  split_and!; try (vm_compute; reflexivity).
  vm_compute. lia.
Qed.

(** Scenario A, asked from the card number field. *)
Lemma FindSectionBounds_contains_field_witness :
  (FindSectionBounds Demo.checkout_form 2 true).1 ≤ 2
    < (FindSectionBounds Demo.checkout_form 2 true).2 ∧
  FindSectionBounds_found Demo.checkout_form 2 true = true.
Proof.
  apply (FindSectionBounds_contains_field Demo.checkout_form 2 true
           (Demo.cached "card" Demo.CARD_NUMBER)).
  - reflexivity.
  - discriminate.
  - reflexivity.
Defined.

(** Scenario A: the month field lies in the payment section [2, 5). *)
Lemma FindSectionBounds_exclusive_witness :
  group (current_type_of (Demo.cached "month" Demo.CARD_EXP_MONTH)) = CREDIT_CARD.
Proof.
  refine (proj1 (FindSectionBounds_exclusive Demo.checkout_form 2 true 3
                   (Demo.cached "month" Demo.CARD_EXP_MONTH) _ _ _) eq_refl).
  - vm_compute. lia.
  - reflexivity.
  - discriminate.
Defined.

(** ** Value resolver: properties *)

Section value_resolver.
Context `{FieldTypes}.
Variable FillSelectControl_card : CreditCard → AutofillFieldType → FormField → FormField.

(** C7. On a field whose control type is "month", FillCreditCardFormField
    sets the value to the stored 4-digit year, a "-", and the stored month
    when both are non-empty, and leaves the field as it is when either one
    is empty. *)
Theorem FillCreditCardFormField_month credit_card type field :
  form_control_type field = "month" →
  let year := CreditCard_GetFieldText credit_card CREDIT_CARD_EXP_4_DIGIT_YEAR in
  let month := CreditCard_GetFieldText credit_card CREDIT_CARD_EXP_MONTH in
  let filled := FillCreditCardFormField FillSelectControl_card credit_card type field in
  (year ≠ "" ∧ month ≠ "" → filled = set_value field (year +:+ "-" +:+ month)) ∧
  (year = "" ∨ month = "" → filled = field).
Proof.
  intros Hmonth year month filled. subst filled.
  unfold FillCreditCardFormField. rewrite Hmonth. simpl.
  fold year month. split.
  - intros [Hy Hm]. by rewrite !bool_decide_eq_false_2.
  - intros [Hy|Hm].
    + by rewrite (bool_decide_eq_true_2 _ Hy).
    + rewrite (bool_decide_eq_true_2 _ Hm). by rewrite andb_false_r.
Qed.

(** C4. With a stored number of exactly 3 + 7 = 10 characters,
    FillPhoneNumberField writes its first 3 characters into a field of
    max_length 3, its last 7 characters into a field of max_length 7, and
    the whole number into any other field; a stored number of any other
    length is always written whole. The number "5551234567" gives "555",
    "1234567" and "5551234567" for max_length 3, 7 and 20. *)
Theorem FillPhoneNumberField_split profile type field :
  let number := AutoFillProfile_GetFieldText profile type in
  let filled := FillPhoneNumberField profile type field in
  (String.length number = 10 →
     (max_length field = 3%Z → filled = set_value field (String.substring 0 3 number)) ∧
     (max_length field = 7%Z →
        filled = set_value field (String.substring (String.length number - 7) 7 number)) ∧
     (max_length field ≠ 3%Z → max_length field ≠ 7%Z → filled = set_value field number)) ∧
  (String.length number ≠ 10 → filled = set_value field number) ∧
  (number = "5551234567" →
     (max_length field = 3%Z → value filled = "555") ∧
     (max_length field = 7%Z → value filled = "1234567") ∧
     (max_length field = 20%Z → value filled = "5551234567")).
Proof.
  intros number filled. subst filled. unfold FillPhoneNumberField. fold number.
  unfold PhoneNumber.kPrefixLength, PhoneNumber.kSuffixLength,
    PhoneNumber.kPrefixOffset, PhoneNumber.kSuffixOffset, substr.
  split; [|split].
  - intros Hlen. rewrite bool_decide_eq_true_2 by lia. rewrite Hlen. simpl.
    split; [|split].
    + intros Hm. by rewrite bool_decide_eq_true_2.
    + intros Hm. rewrite bool_decide_eq_false_2 by lia.
      by rewrite bool_decide_eq_true_2.
    + intros H3 H7. by rewrite !bool_decide_eq_false_2.
  - intros Hlen. rewrite bool_decide_eq_false_2 by lia. done.
  - intros Hnum. rewrite Hnum. simpl. split; [|split]; intros Hm; rewrite Hm; done.
Qed.

End value_resolver.

(** Scenario C, for the box of max_length 7. *)
Lemma FillPhoneNumberField_split_witness :
  value (FillPhoneNumberField phone_profile Demo.PHONE_HOME_NUMBER (phone_box 7))
    = "1234567" ∧
  FillPhoneNumberField phone_profile Demo.PHONE_HOME_NUMBER (phone_box 7)
    = set_value (phone_box 7) "1234567".
Proof.
  pose proof (FillPhoneNumberField_split phone_profile Demo.PHONE_HOME_NUMBER
                (phone_box 7)) as (Hten & _ & Hscenario).
  split.
  - apply Hscenario; reflexivity.
  - apply Hten; reflexivity.
Defined.

(** A card that expires in 2012-04, filled into a month control. *)
Lemma FillCreditCardFormField_month_witness :
  FillCreditCardFormField (λ _ _ f, f) expiring_card Demo.CARD_EXP_MONTH month_box
    = set_value month_box "2012-04".
Proof.
  apply (FillCreditCardFormField_month (λ _ _ f, f) expiring_card
           Demo.CARD_EXP_MONTH month_box).
  - reflexivity.
  - split; discriminate.
Defined.

(** ** Suggestion deduplication: properties of RemoveDuplicateSuggestions *)

Section dedup.

Lemma unzip4_app rows r :
  unzip4 (rows ++ [r]) =
  ((unzip4 rows).1.1.1 ++ [r.1.1.1], (unzip4 rows).1.1.2 ++ [r.1.1.2],
   (unzip4 rows).1.2 ++ [r.1.2], (unzip4 rows).2 ++ [r.2]).
Proof. unfold unzip4. simpl. by rewrite !fmap_app. Qed.

Lemma zip4_unzip4 rows :
  zip4 (unzip4 rows).1.1.1 (unzip4 rows).1.1.2 (unzip4 rows).1.2 (unzip4 rows).2 = rows.
Proof.
  induction rows as [|[[[v l] ic] u] rows IH]; [done|].
  simpl. f_equal. exact IH.
Qed.

Lemma unzip4_zip4 values : ∀ labels icons unique_ids,
  length labels = length values → length icons = length values →
  length unique_ids = length values →
  unzip4 (zip4 values labels icons unique_ids) = (values, labels, icons, unique_ids).
Proof.
  induction values as [|v values IH]; intros [|l labels] [|ic icons] [|u ids];
    simpl; try done.
  intros Hl Hi Hu. injection Hl as Hl. injection Hi as Hi. injection Hu as Hu.
  specialize (IH labels icons ids Hl Hi Hu).
  unfold unzip4 in *. injection IH as H1 H2 H3 H4.
  rewrite !fmap_cons. simpl. by rewrite H1, H2, H3, H4.
Qed.

Lemma unzip4_lengths rows :
  length (unzip4 rows).1.1.2 = length (unzip4 rows).1.1.1 ∧
  length (unzip4 rows).1.2 = length (unzip4 rows).1.1.1 ∧
  length (unzip4 rows).2 = length (unzip4 rows).1.1.1.
Proof. unfold unzip4. simpl. by rewrite !length_fmap. Qed.

(** The loop with its copies computes [dedup_rows] on the zipped vectors. *)
Lemma RemoveDuplicateSuggestions_loop_rows values :
  ∀ labels icons unique_ids seen copy,
  length labels = length values → length icons = length values →
  length unique_ids = length values →
  RemoveDuplicateSuggestions_loop seen values labels icons unique_ids (unzip4 copy)
  = Some (unzip4 (copy ++ dedup_rows seen (zip4 values labels icons unique_ids))).
Proof.
  induction values as [|v values IH]; intros [|l labels] [|ic icons] [|u ids] seen copy;
    simpl; try done.
  { intros _ _ _. by rewrite app_nil_r. }
  intros Hl Hi Hu. injection Hl as Hl. injection Hi as Hi. injection Hu as Hu.
  unfold row_key. simpl.
  destruct (bool_decide ((v, l) ∈ seen)) eqn:Hseen.
  - change (RemoveDuplicateSuggestions_loop seen values labels icons ids
              (unzip4 copy) =
            Some (unzip4 (copy ++ dedup_rows seen (zip4 values labels icons ids)))).
    by apply IH.
  - rewrite (cons_middle (v, l, ic, u)), app_assoc.
    rewrite <- (IH labels icons ids ({[ (v, l) ]} ∪ seen) (copy ++ [(v, l, ic, u)])
                  Hl Hi Hu).
    by rewrite unzip4_app.
Qed.

Lemma RemoveDuplicateSuggestions_rows values labels icons unique_ids :
  length labels = length values → length icons = length values →
  length unique_ids = length values →
  RemoveDuplicateSuggestions values labels icons unique_ids
  = Some (unzip4 (dedup_rows ∅ (zip4 values labels icons unique_ids))).
Proof.
  intros Hl Hi Hu. unfold RemoveDuplicateSuggestions.
  by rewrite (RemoveDuplicateSuggestions_loop_rows values labels icons unique_ids ∅ []).
Qed.

Lemma keys_unzip4 rows :
  zip (unzip4 rows).1.1.1 (unzip4 rows).1.1.2 = row_key <$> rows.
Proof.
  induction rows as [|[[[v l] ic] u] rows IH]; [done|].
  simpl. f_equal. exact IH.
Qed.

Lemma keys_zip4 values : ∀ labels icons unique_ids,
  length labels = length values → length icons = length values →
  length unique_ids = length values →
  (row_key <$> zip4 values labels icons unique_ids) = zip values labels.
Proof.
  intros labels icons ids Hl Hi Hu.
  rewrite <- keys_unzip4. by rewrite unzip4_zip4.
Qed.

(** The output keys are pairwise different, were not seen before, and come
    from the input. *)
Lemma dedup_rows_keys rows : ∀ seen,
  NoDup (row_key <$> dedup_rows seen rows) ∧
  (∀ k, k ∈ (row_key <$> dedup_rows seen rows) →
        (k ∉ seen) ∧ k ∈ (row_key <$> rows)).
Proof.
  induction rows as [|r rows IH]; intros seen; simpl.
  { split; [constructor|]. intros k Hk. by apply elem_of_nil in Hk. }
  case_bool_decide as Hseen.
  - destruct (IH seen) as [Hnd Hin]. split; [done|].
    intros k Hk. destruct (Hin k Hk). split; [done|]. by apply elem_of_cons; right.
  - destruct (IH ({[ row_key r ]} ∪ seen)) as [Hnd Hin]. split.
    + rewrite fmap_cons. apply NoDup_cons. split; [|done].
      intros Hk. destruct (Hin _ Hk) as [Hk' _].
      apply Hk'. apply elem_of_union_l. by apply elem_of_singleton.
    + intros k Hk. rewrite fmap_cons in Hk. apply elem_of_cons in Hk as [->|Hk].
      * split; [done|]. by apply elem_of_cons; left.
      * destruct (Hin k Hk) as [Hk1 Hk2].
        split; [intros ?; apply Hk1; by apply elem_of_union_r|].
        by apply elem_of_cons; right.
Qed.

(** Rows with pairwise different, unseen keys all pass. *)
Lemma dedup_rows_fixed rows : ∀ seen,
  NoDup (row_key <$> rows) →
  (∀ k, k ∈ (row_key <$> rows) → k ∉ seen) →
  dedup_rows seen rows = rows.
Proof.
  induction rows as [|r rows IH]; intros seen Hnd Hfresh; [done|]. simpl.
  rewrite fmap_cons in Hnd. apply NoDup_cons in Hnd as [Hr Hnd].
  rewrite bool_decide_eq_false_2.
  2: { apply Hfresh. by apply elem_of_cons; left. }
  f_equal. apply IH; [done|]. intros k Hk.
  assert (k ∉ seen) by (apply Hfresh; by apply elem_of_cons; right).
  assert (k ≠ row_key r) by (by intros ->).
  by intros [?%elem_of_singleton|?]%elem_of_union.
Qed.

Lemma dedup_rows_sublist rows : ∀ seen, sublist (dedup_rows seen rows) rows.
Proof.
  induction rows as [|r rows IH]; intros seen; simpl; [done|].
  case_bool_decide; [by apply sublist_cons|by apply sublist_skip].
Qed.

Lemma dedup_rows_complete rows : ∀ seen k,
  k ∈ (row_key <$> rows) → k ∉ seen → k ∈ (row_key <$> dedup_rows seen rows).
Proof.
  induction rows as [|r rows IH]; intros seen k Hk Hseen; [done|]. simpl.
  rewrite fmap_cons in Hk. apply elem_of_cons in Hk as [->|Hk].
  - rewrite bool_decide_eq_false_2 by done. by apply elem_of_cons; left.
  - case_bool_decide as Hr; [by apply IH|].
    rewrite fmap_cons. destruct (decide (k = row_key r)) as [->|Hne].
    + by apply elem_of_cons; left.
    + apply elem_of_cons; right. apply IH; [done|].
      by intros [?%elem_of_singleton|?]%elem_of_union.
Qed.

(** A row that passes is the first input row with its key. *)
Lemma dedup_rows_first rows : ∀ seen r,
  r ∈ dedup_rows seen rows →
  ∃ pre post, rows = pre ++ r :: post ∧ row_key r ∉ row_key <$> pre.
Proof.
  induction rows as [|r0 rows IH]; intros seen r Hr; simpl in Hr.
  { by apply elem_of_nil in Hr. }
  case_bool_decide as Hseen.
  - destruct (IH seen r Hr) as (pre & post & -> & Hpre).
    pose proof (dedup_rows_keys (pre ++ r :: post) seen) as [_ Hin].
    destruct (Hin (row_key r)) as [Hfresh _]; [by apply list_elem_of_fmap_2|].
    exists (r0 :: pre), post. split; [done|].
    rewrite fmap_cons. intros [Heq|?]%elem_of_cons; [|done]. congruence.
  - apply elem_of_cons in Hr as [->|Hr].
    + exists [], rows. split; [done|]. simpl. apply not_elem_of_nil.
    + destruct (IH _ r Hr) as (pre & post & -> & Hpre).
      pose proof (dedup_rows_keys (pre ++ r :: post) ({[ row_key r0 ]} ∪ seen))
        as [_ Hin].
      destruct (Hin (row_key r)) as [Hfresh _]; [by apply list_elem_of_fmap_2|].
      exists (r0 :: pre), post. split; [done|].
      rewrite fmap_cons. intros [Heq|?]%elem_of_cons; [|done].
      apply Hfresh. rewrite Heq. apply elem_of_union_l. by apply elem_of_singleton.
Qed.

(** C9. On four vectors of equal length RemoveDuplicateSuggestions returns
    four vectors of equal length on which a second application changes
    nothing. The (value, label) pairs of the output are pairwise different;
    the output keeps the input order, every input pair is still present,
    and each kept entry is the first input entry with its pair. *)
Theorem RemoveDuplicateSuggestions_idempotent values labels icons unique_ids :
  length labels = length values → length icons = length values →
  length unique_ids = length values →
  ∃ values' labels' icons' unique_ids',
    RemoveDuplicateSuggestions values labels icons unique_ids
      = Some (values', labels', icons', unique_ids') ∧
    RemoveDuplicateSuggestions values' labels' icons' unique_ids'
      = Some (values', labels', icons', unique_ids') ∧
    length labels' = length values' ∧ length icons' = length values' ∧
    length unique_ids' = length values' ∧
    NoDup (zip values' labels') ∧
    sublist (zip4 values' labels' icons' unique_ids')
            (zip4 values labels icons unique_ids) ∧
    (∀ p, p ∈ zip values labels → p ∈ zip values' labels') ∧
    (∀ r, r ∈ zip4 values' labels' icons' unique_ids' →
          ∃ pre post, zip4 values labels icons unique_ids = pre ++ r :: post ∧
                      row_key r ∉ row_key <$> pre).
Proof.
  intros Hl Hi Hu.
  set (rows := zip4 values labels icons unique_ids).
  set (out := dedup_rows ∅ rows).
  exists (unzip4 out).1.1.1, (unzip4 out).1.1.2, (unzip4 out).1.2, (unzip4 out).2.
  destruct (unzip4_lengths out) as (Hl' & Hi' & Hu').
  destruct (dedup_rows_keys rows ∅) as [Hnd Hin]. fold out in Hnd, Hin.
  split_and!; try done.
  - by rewrite RemoveDuplicateSuggestions_rows.
  - rewrite RemoveDuplicateSuggestions_rows by done.
    rewrite zip4_unzip4. rewrite dedup_rows_fixed; [done|done|].
    intros k _. apply not_elem_of_empty.
  - by rewrite keys_unzip4.
  - rewrite zip4_unzip4. apply dedup_rows_sublist.
  - intros p Hp. rewrite keys_unzip4.
    apply dedup_rows_complete; [|apply not_elem_of_empty].
    unfold rows. by rewrite keys_zip4.
  - intros r Hr. rewrite zip4_unzip4 in Hr. by apply (dedup_rows_first rows ∅).
Qed.

End dedup.

(** Two equal (value, label) pairs followed by a different one. *)
Lemma RemoveDuplicateSuggestions_idempotent_witness :
  ∃ values' labels' icons' unique_ids',
    RemoveDuplicateSuggestions ["Elvis"; "Elvis"; "Charles"] ["a"; "a"; "b"]
      [""; ""; ""] [1; 2; 3]%Z
      = Some (values', labels', icons', unique_ids') ∧
    RemoveDuplicateSuggestions values' labels' icons' unique_ids'
      = Some (values', labels', icons', unique_ids').
Proof.
  destruct (RemoveDuplicateSuggestions_idempotent
              ["Elvis"; "Elvis"; "Charles"] ["a"; "a"; "b"] [""; ""; ""] [1; 2; 3]%Z
              eq_refl eq_refl eq_refl)
    as (v & l & i & u & H1 & H2 & _).
  exists v, l, i, u. by split.
Defined.

Example RemoveDuplicateSuggestions_run :
  RemoveDuplicateSuggestions ["Elvis"; "Elvis"; "Charles"] ["a"; "a"; "b"]
    ["x"; "y"; "z"] [1; 2; 3]%Z
  = Some (["Elvis"; "Charles"], ["a"; "b"], ["x"; "z"], [1; 3]%Z).
Proof. vm_compute. reflexivity. Qed.

(** ** Structural matcher: the two forward searches *)

Section matcher.
Context `{FieldTypes}.
Variable FillSelectControl_card : CreditCard → AutofillFieldType → FormField → FormField.
Variable FillSelectControl_profile :
  AutoFillProfile → AutofillFieldType → FormField → FormField.
Implicit Types (cached : list AutoFillField) (live : FormField).

Abbreviation fill_loop :=
  (fill_section_loop FillSelectControl_card FillSelectControl_profile).

(** The bounded search returns the first match from the cursor on, or the
    bound. *)
Lemma search_section_spec live section_end suffix : ∀ k0 k,
  search_section live section_end k0 suffix = Some k →
  k0 ≤ k ∧
  (k < section_end → matches_at suffix live (k - k0)) ∧
  (∀ k', k0 ≤ k' < k → ¬ matches_at suffix live (k' - k0)).
Proof.
  induction suffix as [|c suffix IH]; intros k0 k Hs; simpl in Hs.
  - destruct (section_end <=? k0) eqn:Hb; [|done].
    injection Hs as <-. apply Nat.leb_le in Hb.
    split; [done|]. split; intros; lia.
  - destruct (section_end <=? k0) eqn:Hb.
    { injection Hs as <-. apply Nat.leb_le in Hb. split; [done|]. split; intros; lia. }
    destruct (FormField_eq (form_field c) live) eqn:Heq; simpl in Hs.
    + injection Hs as <-. split; [done|]. split; [|intros; lia].
      intros _. exists c. by rewrite Nat.sub_diag.
    + destruct (IH (S k0) k Hs) as (Hle & Hfound & Hfirst).
      split; [lia|]. split.
      * intros Hlt. destruct (Hfound Hlt) as (c' & Hl & He).
        exists c'. split; [|done].
        replace (k - k0) with (S (k - S k0)) by lia. done.
      * intros k' Hk' (c' & Hl & He).
        destruct (decide (k' = k0)) as [->|Hne].
        -- rewrite Nat.sub_diag in Hl. simpl in Hl. congruence.
        -- apply (Hfirst k'); [lia|]. exists c'. split; [|done].
           replace (k' - k0) with (S (k' - S k0)) in Hl by lia. done.
Qed.

Lemma search_section_defined live section_end suffix : ∀ k0,
  section_end ≤ k0 + length suffix →
  is_Some (search_section live section_end k0 suffix).
Proof.
  induction suffix as [|c suffix IH]; intros k0 Hb; simpl in *.
  - rewrite (proj2 (Nat.leb_le _ _)) by lia. done.
  - destruct (section_end <=? k0); [done|].
    destruct (FormField_eq (form_field c) live); simpl; [done|].
    apply IH. lia.
Qed.

(** The same facts in terms of the whole cached list. *)
Lemma search_section_drop cached live section_end i k :
  search_section live section_end i (drop i cached) = Some k →
  i ≤ k ∧
  (k < section_end → matches_at cached live k) ∧
  (∀ k', i ≤ k' < k → ¬ matches_at cached live k').
Proof.
  intros Hs. destruct (search_section_spec _ _ _ _ _ Hs) as (Hle & Hfound & Hfirst).
  split; [done|]. split.
  - intros Hlt. destruct (Hfound Hlt) as (c & Hl & He). exists c.
    rewrite lookup_drop in Hl. by replace (i + (k - i)) with k in Hl by lia.
  - intros k' Hk' (c & Hl & He). apply (Hfirst k' Hk'). exists c.
    rewrite lookup_drop. by replace (i + (k' - i)) with k' by lia.
Qed.

(** The unbounded search of SectionIsAutoFilled. *)
Lemma search_form_spec live suffix : ∀ k0,
  let k := search_form live k0 suffix in
  k0 ≤ k ≤ k0 + length suffix ∧
  (k < k0 + length suffix → matches_at suffix live (k - k0)) ∧
  (∀ k', k0 ≤ k' < k → ¬ matches_at suffix live (k' - k0)).
Proof.
  induction suffix as [|c suffix IH]; intros k0; simpl.
  { split; [lia|]. split; intros; lia. }
  destruct (FormField_eq (form_field c) live) eqn:Heq; simpl.
  - split; [lia|]. split; [|intros; lia].
    intros _. exists c. by rewrite Nat.sub_diag.
  - destruct (IH (S k0)) as (Hle & Hfound & Hfirst).
    split; [lia|]. split.
    + intros Hlt. destruct Hfound as (c' & Hl & He); [lia|].
      exists c'. split; [|done].
      replace (search_form live (S k0) suffix - k0)
        with (S (search_form live (S k0) suffix - S k0)) by lia. done.
    + intros k' Hk' (c' & Hl & He).
      destruct (decide (k' = k0)) as [->|Hne].
      * rewrite Nat.sub_diag in Hl. simpl in Hl. congruence.
      * apply (Hfirst k'); [lia|]. exists c'. split; [|done].
        replace (k' - k0) with (S (k' - S k0)) in Hl by lia. done.
Qed.

Lemma search_form_drop cached live i :
  i ≤ length cached →
  let k := search_form live i (drop i cached) in
  i ≤ k ≤ length cached ∧
  (k < length cached → matches_at cached live k) ∧
  (∀ k', i ≤ k' < k → ¬ matches_at cached live k').
Proof.
  intros Hi. destruct (search_form_spec live (drop i cached) i) as (Hle & Hfound & Hfirst).
  rewrite length_drop in Hle, Hfound. simpl.
  split; [lia|]. split.
  - intros Hlt. destruct Hfound as (c & Hl & He); [lia|]. exists c.
    rewrite lookup_drop in Hl.
    by replace (i + (search_form live i (drop i cached) - i))
      with (search_form live i (drop i cached)) in Hl by lia.
  - intros k' Hk' (c & Hl & He). apply (Hfirst k' Hk'). exists c.
    rewrite lookup_drop. by replace (i + (k' - i)) with k' by lia.
Qed.

(** The fill-targeting loop is defined whenever the section lies within
    the cached form. *)
Lemma fill_section_loop_defined src form_structure section_end live_from_j :
  ∀ i j,
  section_end ≤ field_count form_structure →
  is_Some (fill_loop src form_structure section_end i j live_from_j).
Proof.
  unfold field_count.
  induction live_from_j as [|live_j rest IH]; intros i j Hend; simpl; [done|].
  destruct (i <? section_end) eqn:Hi; simpl; [|done].
  apply Nat.ltb_lt in Hi.
  destruct (search_section_defined live_j section_end (drop i (fields form_structure)) i)
    as [k Hk].
  { rewrite length_drop. lia. }
  rewrite Hk. destruct (search_section_drop _ _ _ _ _ Hk) as (Hle & Hfound & _).
  destruct (section_end <=? k) eqn:Hb.
  - destruct (IH i (S j) Hend) as [[matched filled] ->]. done.
  - apply Nat.leb_gt in Hb. destruct (Hfound Hb) as (c & -> & _). simpl.
    destruct (IH (S i) (S j) Hend) as [[matched filled] ->]. done.
Qed.

(** What the loop records: the [m]-th correspondence found from cursor [i]
    at live position [j]. *)
Lemma fill_section_loop_spec src form_structure section_end live_from_j :
  ∀ i j matched filled,
  fill_loop src form_structure section_end i j live_from_j = Some (matched, filled) →
  (∀ m k j', matched !! m = Some (k, j') →
     i + m ≤ k < section_end ∧ j ≤ j' ∧
     ∃ live, live_from_j !! (j' - j) = Some live ∧
             matches_at (fields form_structure) live k ∧
             ∀ k', i + m ≤ k' < k → ¬ matches_at (fields form_structure) live k') ∧
  (∀ m1 m2 k1 j1 k2 j2, m1 < m2 →
     matched !! m1 = Some (k1, j1) → matched !! m2 = Some (k2, j2) → j1 < j2) ∧
  length filled = length live_from_j.
Proof.
  induction live_from_j as [|live_j rest IH]; intros i j matched filled Hrun;
    simpl in Hrun.
  { injection Hrun as <- <-. split_and!; [|done|done]. intros m k j' Hm. done. }
  destruct (i <? section_end) eqn:Hi; simpl in Hrun.
  2: { injection Hrun as <- <-. split_and!; [|done|done]. intros m k j' Hm. done. }
  apply Nat.ltb_lt in Hi.
  destruct (search_section live_j section_end i (drop i (fields form_structure)))
    as [k|] eqn:Hk; [|done].
  destruct (search_section_drop _ _ _ _ _ Hk) as (Hle & Hfound & Hfirst).
  destruct (section_end <=? k) eqn:Hb.
  - destruct (fill_loop src form_structure section_end i (S j) rest)
      as [[matched' filled']|] eqn:Hrest; [|done].
    simpl in Hrun. injection Hrun as <- <-.
    destruct (IH i (S j) matched' filled' Hrest) as (Ha & Hb' & Hc).
    split_and!.
    + intros m k0 j' Hm. destruct (Ha m k0 j' Hm) as (Hr & Hj & live & Hl & Hrest').
      split; [done|]. split; [lia|]. exists live. split; [|done].
      replace (j' - j) with (S (j' - S j)) by lia. done.
    + done.
    + simpl. by rewrite Hc.
  - apply Nat.leb_gt in Hb.
    destruct (fields form_structure !! k) as [cached_k|] eqn:Hck; [|done].
    simpl in Hrun.
    destruct (fill_loop src form_structure section_end (S i) (S j) rest)
      as [[matched' filled']|] eqn:Hrest; [|done].
    simpl in Hrun. injection Hrun as <- <-.
    destruct (IH (S i) (S j) matched' filled' Hrest) as (Ha & Hb' & Hc).
    split_and!.
    + intros [|m] k0 j' Hm; simpl in Hm.
      * injection Hm as <- <-. split; [lia|]. split; [lia|].
        exists live_j. rewrite Nat.sub_diag. split; [done|].
        split; [by apply Hfound|]. intros k' Hk'. apply Hfirst. lia.
      * destruct (Ha m k0 j' Hm) as (Hr & Hj & live & Hl & Hm1 & Hm2).
        split; [lia|]. split; [lia|]. exists live. split_and!.
        -- replace (j' - j) with (S (j' - S j)) by lia. done.
        -- done.
        -- intros k' Hk'. apply Hm2. lia.
    + intros [|m1] [|m2] k1 j1 k2 j2 Hlt H1 H2; simpl in *; try lia.
      * injection H1 as <- <-. destruct (Ha m2 k2 j2 H2) as (_ & Hj & _). lia.
      * apply (Hb' m1 m2 k1 j1 k2 j2); [lia|done|done].
    + simpl. by rewrite Hc.
Qed.

(** C3 (amended). For a section within the cached form the fill-targeting
    loop runs to completion, and its correspondences (k, j), numbered
    m = 0, 1, ... in the order they are found, have strictly increasing
    live indices j; the m-th cached index k is the first index from the
    cursor [section_start + m] on, below [section_end], whose cached field
    equals the live field j. The cursor advances by one per correspondence. *)
Theorem fill_section_loop_correspondences src form_structure form
    section_start section_end :
  section_end ≤ field_count form_structure →
  ∃ matched filled,
    fill_loop src form_structure section_end section_start 0 (form_fields form)
      = Some (matched, filled) ∧
    (∀ m k j, matched !! m = Some (k, j) →
       section_start + m ≤ k < section_end ∧
       ∃ live, form_fields form !! j = Some live ∧
               matches_at (fields form_structure) live k ∧
               ∀ k', section_start + m ≤ k' < k →
                     ¬ matches_at (fields form_structure) live k') ∧
    (∀ m1 m2 k1 j1 k2 j2, m1 < m2 →
       matched !! m1 = Some (k1, j1) → matched !! m2 = Some (k2, j2) → j1 < j2).
Proof.
  intros Hend.
  destruct (fill_section_loop_defined src form_structure section_end
              (form_fields form) section_start 0 Hend) as [[matched filled] Hrun].
  exists matched, filled. split; [done|].
  destruct (fill_section_loop_spec _ _ _ _ _ _ _ _ Hrun) as (Ha & Hb & _).
  split; [|done].
  intros m k j Hm. destruct (Ha m k j Hm) as (Hr & _ & live & Hl & Hrest).
  split; [done|]. exists live. by rewrite Nat.sub_0_r in Hl.
Qed.

(** A live field the check is sure to reach, which has a match in the
    cached form, makes the check return true when it is autofilled. *)
Lemma SectionIsAutoFilled_loop_reaches form_structure section_end live k0 :
  ∀ live_from_j i j',
  live_from_j !! j' = Some live →
  i + j' < section_end →
  section_end ≤ k0 → matches_at (fields form_structure) live k0 →
  is_autofilled live = true →
  SectionIsAutoFilled_loop form_structure section_end i live_from_j = true.
Proof.
  induction live_from_j as [|live_j rest IH]; intros i j' Hl Hi Hk0 Hm Hfilled;
    [done|].
  simpl. rewrite (proj2 (Nat.ltb_lt i section_end)) by lia. simpl.
  destruct j' as [|j'']; simpl in Hl.
  - injection Hl as ->. unfold field_count.
    assert (k0 < length (fields form_structure)) as Hk0'.
    { destruct Hm as (c & Hc & _). by apply lookup_lt_Some in Hc. }
    destruct (search_form_drop (fields form_structure) live i) as (Hle & _ & Hfirst);
      [lia|].
    destruct (length (fields form_structure)
                <=? search_form live i (drop i (fields form_structure))) eqn:Hb.
    + apply Nat.leb_le in Hb. exfalso. apply (Hfirst k0); [lia|done].
    + by rewrite Hfilled.
  - destruct (field_count form_structure
                <=? search_form live_j i (drop i (fields form_structure))).
    + apply (IH i j''); try done. lia.
    + destruct (is_autofilled live_j); [done|].
      apply (IH (S i) j''); try done. lia.
Qed.

(** The same for a live field that the loop reaches with some cursor. *)
Lemma SectionIsAutoFilled_loop_at_cursor form_structure section_end live k0 :
  ∀ live_from_j i j' c,
  SectionIsAutoFilled_cursor form_structure section_end i live_from_j j' = Some c →
  live_from_j !! j' = Some live →
  section_end ≤ k0 → matches_at (fields form_structure) live k0 →
  is_autofilled live = true →
  SectionIsAutoFilled_loop form_structure section_end i live_from_j = true.
Proof.
  induction live_from_j as [|live_j rest IH]; intros i j' c Hc Hl Hk0 Hm Hfilled;
    [done|].
  simpl in *. destruct (i <? section_end) eqn:Hi; simpl in *; [|done].
  apply Nat.ltb_lt in Hi.
  destruct j' as [|j'']; simpl in Hl.
  - injection Hl as ->. unfold field_count.
    assert (k0 < length (fields form_structure)) as Hk0'.
    { destruct Hm as (c' & Hc' & _). by apply lookup_lt_Some in Hc'. }
    destruct (search_form_drop (fields form_structure) live i) as (Hle & _ & Hfirst);
      [lia|].
    destruct (length (fields form_structure)
                <=? search_form live i (drop i (fields form_structure))) eqn:Hb.
    + apply Nat.leb_le in Hb. exfalso. apply (Hfirst k0); [lia|done].
    + by rewrite Hfilled.
  - destruct (field_count form_structure
                <=? search_form live_j i (drop i (fields form_structure))).
    + by apply (IH i j'' c).
    + destruct (is_autofilled live_j); [done|]. by apply (IH (S i) j'' c).
Qed.

(** C10 (amended). Take a live field at position [j] that equals a cached
    field at an index at or beyond [section_end] and none below it. From
    every cursor up to [section_end] the search of SectionIsAutoFilled,
    bounded by the field count, finds such a cached field. If the loop
    reaches the field (its cursor is still below [section_end] when the
    field's turn comes) and the field is autofilled, the check returns true;
    with [section_start + j < section_end] the loop is sure to reach the
    field or to have returned true before. The fill-targeting loop, whose
    search stops at [section_end], records no correspondence for that live
    field. *)
Theorem SectionIsAutoFilled_matches_beyond_section src form_structure form
    section_start section_end j live k0 :
  form_fields form !! j = Some live →
  section_end ≤ k0 →
  matches_at (fields form_structure) live k0 →
  (∀ k', k' < section_end → ¬ matches_at (fields form_structure) live k') →
  (∀ i, i ≤ section_end →
     let k := search_form live i (drop i (fields form_structure)) in
     section_end ≤ k < field_count form_structure ∧
     matches_at (fields form_structure) live k) ∧
  (∀ i, SectionIsAutoFilled_cursor form_structure section_end section_start
          (form_fields form) j = Some i →
        is_autofilled live = true →
        SectionIsAutoFilled form_structure form section_start section_end = true) ∧
  (section_start + j < section_end → is_autofilled live = true →
     SectionIsAutoFilled form_structure form section_start section_end = true) ∧
  (∀ matched filled,
     fill_loop src form_structure section_end section_start 0 (form_fields form)
       = Some (matched, filled) →
     ∀ k, (k, j) ∉ matched).
Proof.
  intros Hl Hk0 Hm Hnone.
  assert (k0 < length (fields form_structure)) as Hk0'.
  { destruct Hm as (c & Hc & _). by apply lookup_lt_Some in Hc. }
  split_and!.
  - intros i Hi. unfold field_count.
    destruct (search_form_drop (fields form_structure) live i) as (Hle & Hfound & Hfirst);
      [lia|].
    set (k := search_form live i (drop i (fields form_structure))) in *. simpl.
    assert (k < length (fields form_structure)) as Hlt.
    { destruct (decide (k < length (fields form_structure))) as [|Hge]; [done|].
      exfalso. apply (Hfirst k0); [lia|done]. }
    split; [|by apply Hfound]. split; [|done].
    destruct (decide (section_end ≤ k)) as [|Hbelow]; [done|].
    exfalso. apply (Hnone k); [lia|by apply Hfound].
  - intros i Hcursor Hfilled. unfold SectionIsAutoFilled.
    by apply (SectionIsAutoFilled_loop_at_cursor form_structure section_end live k0
                (form_fields form) section_start j i).
  - intros Hreach Hfilled. unfold SectionIsAutoFilled.
    by apply (SectionIsAutoFilled_loop_reaches form_structure section_end live k0
                (form_fields form) section_start j).
  - intros matched filled Hrun k Hin.
    apply list_elem_of_lookup in Hin as [m Hm'].
    destruct (fill_section_loop_spec _ _ _ _ _ _ _ _ Hrun) as (Ha & _ & _).
    destruct (Ha m k j Hm') as (Hr & _ & live' & Hl' & Hmatch & _).
    rewrite Nat.sub_0_r in Hl'. assert (live' = live) as -> by congruence.
    apply (Hnone k); [lia|done].
Qed.

End matcher.

(** *** Concrete runs of the two loops *)

(** A live form with the field "b" twice: both live fields are paired with
    the cached index 1, because the cursor moves from 0 to 1, not past the
    match. *)
Example fill_section_loop_repeats_index :
  fst <$> fill_section_loop no_select no_select (FromProfile phone_profile)
            two_field_form 2 0 0 [Demo.text_field "b"; Demo.text_field "b"]
  = Some [(1, 0); (1, 1)].
Proof. vm_compute. reflexivity. Qed.

(** A live form in another order: the cached indices go down. *)
Example fill_section_loop_goes_back :
  fst <$> fill_section_loop no_select no_select (FromProfile phone_profile)
            three_field_form 3 0 0 [Demo.text_field "c"; Demo.text_field "b"]
  = Some [(2, 0); (1, 1)].
Proof. vm_compute. reflexivity. Qed.

(** C3 as stated fails: the cached indices of the correspondences are not
    always strictly increasing. *)
Lemma fill_section_loop_not_increasing :
  ¬ (∀ (src : FillSource) (form_structure : FormStructure) (form : FormData)
       (section_start section_end : nat) matched filled,
       fill_section_loop no_select no_select src form_structure section_end
         section_start 0 (form_fields form) = Some (matched, filled) →
       ∀ m1 m2 k1 j1 k2 j2, m1 < m2 →
         matched !! m1 = Some (k1, j1) → matched !! m2 = Some (k2, j2) → k1 < k2).
Proof.
  intros Hclaim.
  specialize (Hclaim (FromProfile phone_profile) two_field_form
                (live_form [Demo.text_field "b"; Demo.text_field "b"]) 0 2
                _ _ eq_refl 0 1 1 0 1 1).
  simpl in Hclaim. specialize (Hclaim ltac:(lia) eq_refl eq_refl). lia.
Qed.

(** The loop runs to completion on the reordered live form. *)
Lemma fill_section_loop_correspondences_witness :
  ∃ matched filled,
    fill_section_loop no_select no_select (FromProfile phone_profile)
      three_field_form 3 0 0 [Demo.text_field "c"; Demo.text_field "b"]
    = Some (matched, filled).
Proof.
  destruct (fill_section_loop_correspondences no_select no_select
              (FromProfile phone_profile) three_field_form
              (live_form [Demo.text_field "c"; Demo.text_field "b"]) 0 3)
    as (matched & filled & Hrun & _).
  - vm_compute. lia.
  - by exists matched, filled.
Defined.

(** In the run below the loop never gets to the live field "b". *)
Example SectionIsAutoFilled_cursor_exhausted :
  SectionIsAutoFilled_cursor two_field_form 1 0
    [Demo.text_field "a"; autofilled_field "b"] 1 = None.
Proof. vm_compute. reflexivity. Qed.

(** C10 as stated fails: the live field "b" equals only the cached field at
    index 1, beyond the section [0, 1), and is autofilled, but the loop ends
    as soon as the live field "a" has used up the section. *)
Lemma SectionIsAutoFilled_beyond_section_unreached :
  ¬ (∀ (form_structure : FormStructure) (form : FormData)
       (section_start section_end j : nat) (live : FormField) (k0 : nat),
       form_fields form !! j = Some live →
       section_end ≤ k0 →
       matches_at (fields form_structure) live k0 →
       (∀ k', k' < section_end → ¬ matches_at (fields form_structure) live k') →
       is_autofilled live = true →
       SectionIsAutoFilled form_structure form section_start section_end = true).
Proof.
  intros Hclaim.
  specialize (Hclaim two_field_form
                (live_form [Demo.text_field "a"; autofilled_field "b"]) 0 1 1
                (autofilled_field "b") 1 eq_refl ltac:(lia)).
  assert (SectionIsAutoFilled two_field_form
            (live_form [Demo.text_field "a"; autofilled_field "b"]) 0 1 = false)
    as Hrun by (vm_compute; reflexivity).
  rewrite Hclaim in Hrun; [discriminate| | |reflexivity].
  - eexists. split; [reflexivity|]. vm_compute. reflexivity.
  - intros k' Hk' (c & Hc & Heq). assert (k' = 0) as -> by lia.
    simpl in Hc. injection Hc as <-. vm_compute in Heq. discriminate.
Qed.

(** The autofilled live field "b" comes first: it is searched from cursor 0,
    found at the cached index 1 beyond the section [0, 1), and the section
    is reported auto-filled. *)
Lemma SectionIsAutoFilled_matches_beyond_section_witness :
  SectionIsAutoFilled two_field_form (live_form [autofilled_field "b"]) 0 1 = true.
Proof.
  refine (proj1 (proj2 (proj2 (SectionIsAutoFilled_matches_beyond_section
                          no_select no_select (FromProfile phone_profile)
                          two_field_form (live_form [autofilled_field "b"]) 0 1 0
                          (autofilled_field "b") 1 eq_refl _ _ _))) _ eq_refl).
  - lia.
  - eexists. split; [reflexivity|]. vm_compute. reflexivity.
  - intros k' Hk' (c & Hc & Heq). assert (k' = 0) as -> by lia.
    simpl in Hc. injection Hc as <-. vm_compute in Heq. discriminate.
  - lia.
Defined.

(** ** The message handlers *)

Section handlers.
Context `{FieldTypes}.
Variable FillSelectControl_card : CreditCard → AutofillFieldType → FormField → FormField.
Variable FillSelectControl_profile :
  AutoFillProfile → AutofillFieldType → FormField → FormField.
Variable IsValidGUID : string → bool.
Variable FormStructure_eq : FormStructure → FormData → bool.
Variable StartsWith : string → string → bool → bool.
Variable CreateInferredLabels :
  list AutoFillProfile → list AutofillFieldType → AutofillFieldType → nat →
  list string.
Variable GetStringUTF16 : Z → string.
Variable IDS_AUTOFILL_WARNING_FORM_DISABLED : Z.
Variable IDS_AUTOFILL_WARNING_INSECURE_CONNECTION : Z.

Abbreviation fill := (fill_from FillSelectControl_card FillSelectControl_profile).
Abbreviation fill_single :=
  (fill_single_field FillSelectControl_card FillSelectControl_profile).
Abbreviation on_fill :=
  (OnFillAutoFillFormData FillSelectControl_card FillSelectControl_profile
     IsValidGUID FormStructure_eq).
Abbreviation on_query :=
  (OnQueryFormFieldAutoFill IsValidGUID FormStructure_eq StartsWith
     CreateInferredLabels GetStringUTF16 IDS_AUTOFILL_WARNING_FORM_DISABLED
     IDS_AUTOFILL_WARNING_INSECURE_CONNECTION).

Lemma first_equal_to_unique field l j1 j2 :
  first_equal_to field l j1 → first_equal_to field l j2 → j1 = j2.
Proof.
  intros [(l1 & Hl1 & He1) Hf1] [(l2 & Hl2 & He2) Hf2].
  destruct (Nat.lt_trichotomy j1 j2) as [Hlt|[->|Hlt]]; [|done|].
  - specialize (Hf2 j1 l1 Hlt Hl1). congruence.
  - specialize (Hf1 j2 l2 Hlt Hl2). congruence.
Qed.

(** The already-filled branch rewrites the first field equal to [field] and
    nothing else. *)
Lemma fill_single_field_spec src type field l :
  length (fill_single src type field l) = length l ∧
  ∀ j live, l !! j = Some live →
    (first_equal_to field l j →
       fill_single src type field l !! j = Some (fill src type live)) ∧
    (¬ first_equal_to field l j → fill_single src type field l !! j = Some live).
Proof.
  induction l as [|iter rest [IHlen IH]]; [split; [done|]; intros j live Hl; done|].
  simpl. destruct (FormField_eq iter field) eqn:Heq.
  - split; [done|]. intros [|j] live Hl; simpl in *.
    + injection Hl as <-. split; [done|]. intros Hnot. exfalso. apply Hnot.
      split; [by exists iter|]. intros; lia.
    + split; [|done]. intros [_ Hfirst].
      specialize (Hfirst 0 iter ltac:(lia) eq_refl). congruence.
  - split; [simpl; by rewrite IHlen|]. intros [|j] live Hl; simpl in *.
    + injection Hl as <-. split; [|done].
      intros [(live' & Hl' & He') _]. simpl in Hl'. congruence.
    + destruct (IH j live Hl) as [IHyes IHno]. split.
      * intros [(live' & Hl' & He') Hfirst]. apply IHyes.
        split; [by exists live'|]. intros j' live'' Hlt Hl''.
        apply (Hfirst (S j') live''); [lia|done].
      * intros Hnot. apply IHno. intros [(live' & Hl' & He') Hfirst]. apply Hnot.
        split; [by exists live'|]. intros [|j'] live'' Hlt Hl''; simpl in Hl''.
        -- congruence.
        -- apply (Hfirst j' live''); [lia|done].
Qed.

Lemma find_field_index_spec field cached_from_i : ∀ i n,
  find_field_index field i cached_from_i = Some n →
  i ≤ n ∧ is_Some (cached_from_i !! (n - i)).
Proof.
  induction cached_from_i as [|c rest IH]; intros i n Hf; simpl in Hf; [done|].
  destruct (FormField_eq (form_field c) field).
  - injection Hf as <-. rewrite Nat.sub_diag. split; [done|]. by exists c.
  - destruct (IH (S i) n Hf) as [Hle Hsome]. split; [lia|].
    by replace (n - i) with (S (n - S i)) by lia.
Qed.

Lemma FindCachedFormAndField_in_form m form field form_structure autofill_field :
  FindCachedFormAndField FormStructure_eq m form field
    = Some (form_structure, autofill_field) →
  is_Some (fields form_structure !! autofill_field).
Proof.
  unfold FindCachedFormAndField. intros Hf.
  destruct (FindCachedForm FormStructure_eq m form) as [fs|]; [|done].
  simpl in Hf. case_bool_decide; [done|].
  destruct (find_field_index field 0 (fields fs)) as [n|] eqn:Hn; [|done].
  simpl in Hf. injection Hf as <- <-.
  destruct (find_field_index_spec _ _ _ _ Hn) as [_ Hsome].
  by rewrite Nat.sub_0_r in Hsome.
Qed.

(** C6. When the section computed for a fill request is reported
    auto-filled, the reply is the incoming form in which the first live
    field equal to the initiating field has been filled from the record,
    with the type of the cached initiating field; every other field is the
    incoming field, and there is at most one such first field. *)
Theorem OnFillAutoFillFormData_already_filled m form field unique_id
    form_structure autofill_field cc_guid profile_guid src
    section_start section_end :
  GetHost m = true →
  FindCachedFormAndField FormStructure_eq m form field
    = Some (form_structure, autofill_field) →
  UnpackGUIDs (codec_state m) unique_id = (cc_guid, profile_guid) →
  fill_source (find_profile IsValidGUID m profile_guid)
              (find_credit_card IsValidGUID m cc_guid) = Some src →
  FindSectionBounds form_structure autofill_field
    (bool_decide (is_Some (find_credit_card IsValidGUID m cc_guid)))
    = (section_start, section_end) →
  SectionIsAutoFilled form_structure form section_start section_end = true →
  ∃ result cached_field,
    on_fill m form field unique_id = Some (FormDataFilled result) ∧
    fields form_structure !! autofill_field = Some cached_field ∧
    form_name result = form_name form ∧
    length (form_fields result) = length (form_fields form) ∧
    (∀ j live, form_fields form !! j = Some live →
       (first_equal_to field (form_fields form) j →
          form_fields result !! j = Some (fill src (type cached_field) live)) ∧
       (¬ first_equal_to field (form_fields form) j →
          form_fields result !! j = Some live)) ∧
    (∀ j1 j2, first_equal_to field (form_fields form) j1 →
              first_equal_to field (form_fields form) j2 → j1 = j2).
Proof.
  intros Hhost Hfind Hunpack Hsrc Hbounds Hfilled.
  destruct (FindCachedFormAndField_in_form _ _ _ _ _ Hfind) as [cached_field Hc].
  exists (with_fields form
            (fill_single src (type cached_field) field (form_fields form))),
         cached_field.
  destruct (fill_single_field_spec src (type cached_field) field (form_fields form))
    as [Hlen Hspec].
  split_and!; try done.
  - unfold OnFillAutoFillFormData.
    rewrite Hhost, Hfind, Hunpack, Hsrc, Hbounds, Hfilled, Hc. done.
  - intros j1 j2. apply first_equal_to_unique.
Qed.

(** C5. In OnQueryFormFieldAutoFill, when suggestions were assembled and
    are not empty, and either the form is not auto-fillable under
    [IsAutoFillable(true)] or credit card suggestions were assembled for a
    form that is not HTTPS, the four vectors handed on hold exactly one
    entry: the warning text, an empty label, an empty icon and the id -1.
    The two message ids are resource ids, hence not 0. *)
Theorem OnQueryFormFieldAutoFill_warning m form field form_structure
    autofill_field cached_field values labels icons unique_ids cs :
  IDS_AUTOFILL_WARNING_FORM_DISABLED ≠ 0%Z →
  IDS_AUTOFILL_WARNING_INSECURE_CONNECTION ≠ 0%Z →
  GetHost m = true →
  FindCachedFormAndField FormStructure_eq m form field
    = Some (form_structure, autofill_field) →
  IsAutoFillable form_structure false = true →
  fields form_structure !! autofill_field = Some cached_field →
  let is_filling_credit_card :=
    bool_decide (group (type cached_field) = CREDIT_CARD) in
  (if is_filling_credit_card
   then GetCreditCardSuggestions IsValidGUID StartsWith m field (type cached_field)
   else GetProfileSuggestions IsValidGUID StartsWith CreateInferredLabels m
          form_structure field (type cached_field))
    = ((values, labels, icons, unique_ids), cs) →
  values ≠ [] →
  IsAutoFillable form_structure true = false ∨
    (is_filling_credit_card = true ∧ FormIsHTTPS form_structure = false) →
  ∃ warning,
    on_query m form field
      = Some (([GetStringUTF16 warning], [""], [""], [(-1)%Z]), cs) ∧
    (IsAutoFillable form_structure true = false →
       warning = IDS_AUTOFILL_WARNING_FORM_DISABLED) ∧
    (IsAutoFillable form_structure true = true →
       warning = IDS_AUTOFILL_WARNING_INSECURE_CONNECTION).
Proof.
  intros Hdis Hins Hhost Hfind Hable Hc is_cc Hsugg Hne Hdisallowed.
  unfold OnQueryFormFieldAutoFill.
  rewrite Hhost, Hfind, Hable, Hc. simpl. fold is_cc. rewrite Hsugg.
  destruct values as [|v values]; [done|]. simpl.
  destruct (IsAutoFillable form_structure true) eqn:Htrue; simpl.
  - destruct Hdisallowed as [?|[Hcc Hhttps]]; [done|].
    rewrite Hcc, Hhttps. simpl.
    rewrite bool_decide_eq_false_2 by done. simpl.
    exists IDS_AUTOFILL_WARNING_INSECURE_CONNECTION. by split_and!.
  - rewrite bool_decide_eq_false_2 by done. simpl.
    exists IDS_AUTOFILL_WARNING_FORM_DISABLED. by split_and!.
Qed.

End handlers.

(** *** Concrete runs of the handlers *)

(** Scenario E: the field "a" of an already filled section is edited. *)
Lemma OnFillAutoFillFormData_already_filled_witness :
  ∃ result,
    OnFillAutoFillFormData no_select no_select demo_IsValidGUID any_form
      (demo_manager [two_field_form])
      (live_form [autofilled_field "a"; Demo.text_field "b"])
      (autofilled_field "a") 1
    = Some (FormDataFilled result) ∧
    form_fields result !! 0 = Some (set_value (autofilled_field "a") "5551234567") ∧
    form_fields result !! 1 = Some (Demo.text_field "b").
Proof.
  destruct (OnFillAutoFillFormData_already_filled no_select no_select
              demo_IsValidGUID any_form (demo_manager [two_field_form])
              (live_form [autofilled_field "a"; Demo.text_field "b"])
              (autofilled_field "a") 1 two_field_form 0 "" "guid-A"
              (FromProfile phone_profile) 0 1)
    as (result & cached_field & Hrun & Hc & _ & _ & Hfields & _);
    try (vm_compute; reflexivity).
  exists result. split; [done|].
  injection Hc as <-. split.
  - apply (Hfields 0 (autofilled_field "a") eq_refl).
    split; [by exists (autofilled_field "a")|]. intros; lia.
  - apply (Hfields 1 (Demo.text_field "b") eq_refl).
    intros [(live & Hl & Heq) _]. injection Hl as <-. vm_compute in Heq. discriminate.
Defined.

(** Credit card suggestions on an http form: only the warning is handed on. *)
Lemma OnQueryFormFieldAutoFill_warning_witness :
  ∃ cs,
    OnQueryFormFieldAutoFill demo_IsValidGUID any_form any_prefix no_labels
      warning_text 101 102 card_manager
      (live_form [Demo.text_field "card"]) (Demo.text_field "card")
    = Some ((["insecure connection"], [""], [""], [(-1)%Z]), cs).
Proof.
  destruct (OnQueryFormFieldAutoFill_warning demo_IsValidGUID any_form any_prefix
              no_labels warning_text 101 102 card_manager
              (live_form [Demo.text_field "card"]) (Demo.text_field "card")
              insecure_checkout 0 (Demo.cached "card" Demo.CARD_NUMBER)
              ["************1111"] ["*1111"] ["visaCC"] [65536%Z]
              (PackGUIDs demo_IsValidGUID codec_init "guid-C" "").2)
    as (warning & Hrun & _ & Hinsecure);
    try (vm_compute; reflexivity); try discriminate.
  - right. split; vm_compute; reflexivity.
  - exists (PackGUIDs demo_IsValidGUID codec_init "guid-C" "").2.
    rewrite Hrun, (Hinsecure eq_refl). reflexivity.
Defined.

(** * Further properties *)

(** ** Identifier codec: ids are stable, distinct and decode to valid GUIDs *)

Local Open Scope Z_scope.

Section codec_ids.
Variable IsValidGUID : string → bool.

Abbreviation GUIDToID := (GUIDToID IsValidGUID).
Abbreviation PackGUIDs := (PackGUIDs IsValidGUID).
Abbreviation codec_step := (codec_step IsValidGUID).
Abbreviation codec_steps := (codec_steps IsValidGUID).
Abbreviation codec_reachable := (codec_reachable IsValidGUID).
Abbreviation optional_guid := (optional_guid IsValidGUID).

(** The string-to-id map only grows. *)
Lemma GUIDToID_guid_map_grows s g :
  guid_id_map s ⊆ guid_id_map (GUIDToID s g).2.
Proof.
  unfold GUIDToID. destruct (IsValidGUID g); simpl; [|done].
  destruct (guid_id_map s !! g) eqn:Hg; simpl; [done|].
  by apply insert_subseteq.
Qed.

Lemma codec_step_guid_map_grows s s' :
  codec_step s s' → guid_id_map s ⊆ guid_id_map s'.
Proof.
  intros [s0 cc p|s0 n Hn]; [|done].
  unfold PackGUIDs.
  pose proof (GUIDToID_guid_map_grows s0 cc) as H1.
  destruct (GUIDToID s0 cc) as [cc_id s1].
  pose proof (GUIDToID_guid_map_grows s1 p) as H2.
  destruct (GUIDToID s1 p) as [p_id s2].
  simpl in *. by etrans.
Qed.

Lemma codec_steps_guid_map_grows s s' :
  codec_steps s s' → guid_id_map s ⊆ guid_id_map s'.
Proof.
  induction 1 as [|s1 s2 s3 Hstep _ IH]; [done|].
  etrans; [by apply codec_step_guid_map_grows|done].
Qed.

(** After a call with a valid GUID the string-to-id map holds the id. *)
Lemma GUIDToID_recorded s g :
  IsValidGUID g = true →
  guid_id_map (GUIDToID s g).2 !! g = Some (GUIDToID s g).1.
Proof.
  intros Hv. unfold GUIDToID. rewrite Hv. simpl.
  destruct (guid_id_map s !! g) eqn:Hg; simpl; [done|].
  by rewrite lookup_insert_eq.
Qed.

(** X1. A valid GUID keeps the id it was given: whatever packing happens in
    between, asking again returns the same id and changes nothing. *)
Theorem GUIDToID_stable s g s' :
  IsValidGUID g = true →
  codec_steps (GUIDToID s g).2 s' →
  GUIDToID s' g = ((GUIDToID s g).1, s').
Proof.
  intros Hv Hsteps.
  pose proof (GUIDToID_recorded s g Hv) as Hrec.
  pose proof (codec_steps_guid_map_grows _ _ Hsteps) as Hsub.
  pose proof (lookup_weaken _ _ _ _ Hrec Hsub) as Hlater.
  unfold GUIDToID at 1. by rewrite Hv, Hlater.
Qed.

(** X2. Two valid GUIDs that receive the same id, one now and one at any later
    point, are the same string; and a valid GUID never receives the id 0
    that stands for "absent". *)
Theorem GUIDToID_injective s g1 g2 s' :
  codec_reachable s →
  IsValidGUID g1 = true → IsValidGUID g2 = true →
  codec_steps (GUIDToID s g1).2 s' →
  1 ≤ (GUIDToID s g1).1 ∧
  ((GUIDToID s g1).1 = (GUIDToID s' g2).1 → g1 = g2).
Proof.
  intros Hreach Hv1 Hv2 Hsteps.
  pose proof (codec_reachable_inv IsValidGUID _ Hreach) as Hinv.
  pose proof (GUIDToID_spec IsValidGUID s g1 Hinv) as H1.
  destruct (GUIDToID s g1) as [id1 s1]. simpl in *.
  destruct H1 as (Hinv1 & _ & [(? & _)|(_ & Hl1 & Hr1)]); [congruence|].
  destruct (codec_steps_spec IsValidGUID _ _ Hsteps Hinv1) as [Hinv' [_ Hsub']].
  pose proof (GUIDToID_spec IsValidGUID s' g2 Hinv') as H2.
  destruct (GUIDToID s' g2) as [id2 s2]. simpl in *.
  destruct H2 as (_ & [_ Hsub2] & [(? & _)|(_ & Hl2 & _)]); [congruence|].
  split; [lia|]. intros <-.
  pose proof (lookup_weaken _ _ _ _ (lookup_weaken _ _ _ _ Hl1 Hsub') Hsub2).
  congruence.
Qed.

(** Every string stored in the id-to-string map is a valid GUID. *)
Lemma GUIDToID_values_valid s g :
  (∀ id g', id_guid_map s !! id = Some g' → IsValidGUID g' = true) →
  ∀ id g', id_guid_map (GUIDToID s g).2 !! id = Some g' → IsValidGUID g' = true.
Proof.
  intros Hvalid id g'. unfold GUIDToID.
  destruct (IsValidGUID g) eqn:Hv; simpl; [|apply Hvalid].
  destruct (guid_id_map s !! g) eqn:Hg; simpl; [apply Hvalid|].
  destruct (decide (last_id s = id)) as [<-|Hne].
  - rewrite lookup_insert_eq. congruence.
  - rewrite lookup_insert_ne by done. apply Hvalid.
Qed.

Lemma codec_steps_values_valid s s' :
  codec_steps s s' →
  (∀ id g', id_guid_map s !! id = Some g' → IsValidGUID g' = true) →
  ∀ id g', id_guid_map s' !! id = Some g' → IsValidGUID g' = true.
Proof.
  induction 1 as [|s1 s2 s3 Hstep _ IH]; [done|]. intros Hvalid. apply IH.
  destruct Hstep as [s0 cc p|s0 n Hn]; [|done].
  unfold PackGUIDs.
  pose proof (GUIDToID_values_valid s0 cc Hvalid) as H1.
  destruct (GUIDToID s0 cc) as [cc_id s1'].
  pose proof (GUIDToID_values_valid s1' p H1) as H2.
  destruct (GUIDToID s1' p) as [p_id s2']. done.
Qed.

(** X3. In a state reached from the initial one, whatever integer comes back
    from the renderer, UnpackGUIDs yields for each half either the empty
    string or a valid GUID; the id 0 yields two empty strings. *)
Theorem UnpackGUIDs_valid_or_empty s id :
  codec_reachable s →
  optional_guid (UnpackGUIDs s id).1 ∧ optional_guid (UnpackGUIDs s id).2 ∧
  UnpackGUIDs s 0 = ("", "").
Proof.
  intros Hreach.
  assert (∀ i, optional_guid (IDToGUID s i)) as Hopt.
  { intros i. unfold IDToGUID. destruct (decide (i = 0)); [by right|].
    destruct (id_guid_map s !! i) as [g|] eqn:Hg; [|by right]. left.
    apply (codec_steps_values_valid _ _ Hreach) with (id := i); [|done].
    intros ?? Hl. simpl in Hl. by rewrite lookup_empty in Hl. }
  split_and!; [apply Hopt|apply Hopt|done].
Qed.

End codec_ids.

Local Close Scope Z_scope.

(** ** Section resolver: the range lies within the form *)

Section section_range.
Context `{FieldTypes}.

Lemma FindSectionBounds_loop_range field cc rest : ∀ i st,
  section_start st ≤ i →
  section_end st = i + length rest →
  let st' := FindSectionBounds_loop field cc i rest st in
  section_start st' ≤ section_end st' ≤ i + length rest.
Proof.
  induction rest as [|cur rest IH]; intros i st Hs He; simpl in *.
  { lia. }
  pose proof (FindSectionBounds_body_spec field cc i cur st) as Hb.
  destruct (FindSectionBounds_body field cc i cur st) as [st1|st1].
  - destruct Hb as (Hend1 & Hcases).
    assert (section_start st1 ≤ S i) as Hs1.
    { destruct Hcases as [(_ & ->)|[(_ & _ & Hs1 & _)|(_ & _ & _ & Hs1 & _)]];
        [lia| |lia].
      destruct Hs1 as [->|[-> _]]; lia. }
    specialize (IH (S i) st1 Hs1). simpl in IH.
    assert (section_end st1 = S i + length rest) as He1 by lia.
    specialize (IH He1). lia.
  - destruct Hb as (_ & _ & Hs1 & He1 & _). lia.
Qed.

(** X4. For every form, initiating field and flag the returned range is a
    range of the form: [section_start <= section_end <= field_count]. *)
Theorem FindSectionBounds_within_form form field cc :
  (FindSectionBounds form field cc).1 ≤ (FindSectionBounds form field cc).2 ∧
  (FindSectionBounds form field cc).2 ≤ field_count form.
Proof.
  unfold FindSectionBounds, FindSectionBounds_scan. simpl.
  pose proof (FindSectionBounds_loop_range field cc (fields form) 0
                {| section_start := 0; section_end := field_count form;
                   seen_types := ∅;
                   initiating_field_is_in_current_section := false |}) as Hr.
  simpl in Hr. unfold field_count in *. specialize (Hr ltac:(lia) eq_refl). lia.
Qed.

Lemma FindSectionBounds_body_keeps field cc i cur st :
  (current_type_of cur ≠ UNKNOWN_TYPE → appropriate cc cur = true) →
  (counts_as_repeat cur → current_type_of cur ∉ seen_types st) →
  ∃ st', FindSectionBounds_body field cc i cur st = Continue st' ∧
         section_start st' = section_start st ∧
         section_end st' = section_end st ∧
         (∀ t, t ∈ seen_types st' → t ∈ seen_types st ∨
               (t = current_type_of cur ∧ current_type_of cur ≠ UNKNOWN_TYPE)).
Proof.
  intros Hok Hnew. unfold FindSectionBounds_body.
  fold (current_type_of cur).
  destruct (bool_decide (current_type_of cur = UNKNOWN_TYPE)) eqn:Hu.
  { exists st. split_and!; try done. intros t Ht. by left. }
  apply bool_decide_eq_false in Hu. specialize (Hok Hu).
  unfold appropriate in Hok. rewrite Hok. simpl.
  assert ((if is_phone_group (group (current_type_of cur)) then false
           else bool_decide (current_type_of cur ∈ seen_types st)) = false) as ->.
  { destruct (is_phone_group (group (current_type_of cur))) eqn:Hp; [done|].
    apply bool_decide_eq_false. by apply Hnew. }
  simpl. eexists. split; [done|]. simpl. split_and!; try done.
  intros t [Ht%elem_of_singleton|Ht]%elem_of_union; [right|left]; done.
Qed.

Lemma FindSectionBounds_loop_whole field cc rest : ∀ pre st,
  (∀ fld, fld ∈ rest → current_type_of fld ≠ UNKNOWN_TYPE → appropriate cc fld = true) →
  (∀ i j fi fj, i < j → (pre ++ rest) !! i = Some fi → (pre ++ rest) !! j = Some fj →
     current_type_of fi ≠ UNKNOWN_TYPE → counts_as_repeat fj →
     current_type_of fi ≠ current_type_of fj) →
  (∀ t, t ∈ seen_types st →
     ∃ i fi, pre !! i = Some fi ∧ current_type_of fi = t ∧ t ≠ UNKNOWN_TYPE) →
  let st' := FindSectionBounds_loop field cc (length pre) rest st in
  section_start st' = section_start st ∧ section_end st' = section_end st.
Proof.
  induction rest as [|cur rest IH]; intros pre st Hok Hdistinct Hseen; simpl; [done|].
  destruct (FindSectionBounds_body_keeps field cc (length pre) cur st)
    as (st1 & -> & Hs1 & He1 & Hseen1).
  { apply Hok. by left. }
  { intros Hrep Hin. destruct (Hseen _ Hin) as (i & fi & Hi & Ht & Hknown).
    apply (Hdistinct i (length pre) fi cur); try done.
    - by apply lookup_lt_Some in Hi.
    - by apply lookup_app_l_Some.
    - rewrite lookup_app_r by lia. by rewrite Nat.sub_diag.
    - by rewrite Ht. }
  specialize (IH (pre ++ [cur]) st1).
  assert (length (pre ++ [cur]) = S (length pre)) as Hlen
    by (rewrite length_app; simpl; lia).
  rewrite <- app_assoc in IH. simpl in IH. rewrite Hlen in IH.
  rewrite <- Hs1, <- He1. apply IH.
  - intros fld Hin. apply Hok. by right.
  - done.
  - intros t Ht. destruct (Hseen1 t Ht) as [Hold|[-> Hknown]].
    + destruct (Hseen t Hold) as (i & fi & Hi & Hti & Hk).
      exists i, fi. split; [by apply lookup_app_l_Some|done].
    + exists (length pre), cur. split; [|done].
      rewrite lookup_app_r by lia. by rewrite Nat.sub_diag.
Qed.

(** X5. When every field of known type suits the data being filled and no known
    type occurs twice (repeats in the two phone groups do not count), the
    section is the whole form, whichever field initiates. *)
Theorem FindSectionBounds_whole_form form field cc :
  (∀ fld, fld ∈ fields form → current_type_of fld ≠ UNKNOWN_TYPE →
          appropriate cc fld = true) →
  (∀ i j fi fj, i < j → fields form !! i = Some fi → fields form !! j = Some fj →
     current_type_of fi ≠ UNKNOWN_TYPE → counts_as_repeat fj →
     current_type_of fi ≠ current_type_of fj) →
  FindSectionBounds form field cc = (0, field_count form).
Proof.
  intros Hok Hdistinct. unfold FindSectionBounds, FindSectionBounds_scan.
  destruct (FindSectionBounds_loop_whole field cc (fields form) []
              {| section_start := 0; section_end := field_count form;
                 seen_types := ∅;
                 initiating_field_is_in_current_section := false |})
    as [Hs He]; simpl in *; try done.
  by rewrite Hs, He.
Qed.

End section_range.

(** ** Structural matcher: what the two loops report and change *)

Section matcher_effects.
Context `{FieldTypes}.
Variable FillSelectControl_card : CreditCard → AutofillFieldType → FormField → FormField.
Variable FillSelectControl_profile :
  AutoFillProfile → AutofillFieldType → FormField → FormField.

Abbreviation fill_loop :=
  (fill_section_loop FillSelectControl_card FillSelectControl_profile).
Abbreviation fill := (fill_from FillSelectControl_card FillSelectControl_profile).

Lemma SectionIsAutoFilled_loop_sound form_structure section_end live_from_j :
  ∀ i,
  SectionIsAutoFilled_loop form_structure section_end i live_from_j = true →
  i < section_end ∧
  ∃ j live k, live_from_j !! j = Some live ∧ is_autofilled live = true ∧
              i ≤ k < field_count form_structure ∧
              matches_at (fields form_structure) live k.
Proof.
  unfold field_count.
  induction live_from_j as [|live_j rest IH]; intros i Hrun; simpl in Hrun; [done|].
  destruct (i <? section_end) eqn:Hi; simpl in Hrun; [|done].
  apply Nat.ltb_lt in Hi. split; [done|].
  destruct (search_form_spec live_j (drop i (fields form_structure)) i)
    as (Hle & Hfound & _).
  rewrite length_drop in Hle, Hfound. unfold field_count in Hrun.
  set (k := search_form live_j i (drop i (fields form_structure))) in *.
  destruct (length (fields form_structure) <=? k) eqn:Hk.
  - destruct (IH i Hrun) as (_ & j & live & k' & Hl & Hf & Hr & Hm).
    by exists (S j), live, k'.
  - apply Nat.leb_gt in Hk.
    destruct (is_autofilled live_j) eqn:Hfilled.
    + exists 0, live_j, k. split_and!; try done; try lia.
      destruct Hfound as (c & Hc & Heq); [lia|]. exists c. split; [|done].
      rewrite lookup_drop in Hc. by replace (i + (k - i)) with k in Hc by lia.
    + destruct (IH (S i) Hrun) as (_ & j & live & k' & Hl & Hf & Hr & Hm).
      exists (S j), live, k'. split_and!; try done; lia.
Qed.

(** X6. SectionIsAutoFilled answers true only for a non-empty section and only
    because some live field is autofilled and equals a cached field at an
    index from [section_start] on; with an empty section, or without any
    autofilled live field, the answer is false. *)
Theorem SectionIsAutoFilled_sound form_structure form section_start section_end :
  SectionIsAutoFilled form_structure form section_start section_end = true →
  section_start < section_end ∧
  ∃ j live k, form_fields form !! j = Some live ∧ is_autofilled live = true ∧
              section_start ≤ k < field_count form_structure ∧
              matches_at (fields form_structure) live k.
Proof. apply SectionIsAutoFilled_loop_sound. Qed.

(** What the fill-targeting loop does to each live field. *)
Lemma fill_section_loop_frame src form_structure section_end live_from_j :
  ∀ i j matched filled,
  fill_loop src form_structure section_end i j live_from_j = Some (matched, filled) →
  ∀ j' live, live_from_j !! j' = Some live →
    (∃ k c, (k, j + j') ∈ matched ∧ fields form_structure !! k = Some c ∧
            filled !! j' =
              Some (if negb (bool_decide (group (type c) = NO_GROUP))
                    then fill src (type c) live else live)) ∨
    ((∀ k, (k, j + j') ∉ matched) ∧ filled !! j' = Some live).
Proof.
  induction live_from_j as [|live_j rest IH]; intros i j matched filled Hrun j' live Hl;
    [done|].
  pose proof (fill_section_loop_spec _ _ _ _ _ _ _ _ _ _ Hrun) as (Hspec & _ & _).
  simpl in Hrun.
  destruct (i <? section_end) eqn:Hi; simpl in Hrun.
  2: { injection Hrun as <- <-. right. split; [|done]. intros k Hin.
       by apply elem_of_nil in Hin. }
  destruct (search_section live_j section_end i (drop i (fields form_structure)))
    as [k|] eqn:Hk; [|done].
  destruct (section_end <=? k) eqn:Hb.
  - destruct (fill_loop src form_structure section_end i (S j) rest)
      as [[matched' filled']|] eqn:Hrest; [|done].
    simpl in Hrun. injection Hrun as <- <-.
    destruct j' as [|j'']; simpl in Hl.
    + injection Hl as <-. right. split; [|done]. intros k0 Hin.
      apply list_elem_of_lookup in Hin as [m Hm].
      destruct (fill_section_loop_spec _ _ _ _ _ _ _ _ _ _ Hrest) as (Ha & _ & _).
      destruct (Ha m k0 _ Hm) as (_ & Hj & _). lia.
    + replace (j + S j'') with (S j + j'') by lia.
      by apply (IH i (S j) matched' filled' Hrest j'' live).
  - destruct (fields form_structure !! k) as [cached_k|] eqn:Hck; [|done].
    simpl in Hrun.
    destruct (fill_loop src form_structure section_end (S i) (S j) rest)
      as [[matched' filled']|] eqn:Hrest; [|done].
    simpl in Hrun. injection Hrun as <- <-.
    destruct j' as [|j'']; simpl in Hl.
    + injection Hl as <-. left. exists k, cached_k.
      rewrite Nat.add_0_r. split; [by left|]. done.
    + replace (j + S j'') with (S j + j'') by lia.
      destruct (IH (S i) (S j) matched' filled' Hrest j'' live Hl)
        as [(k0 & c & Hin & Hc & Hf)|[Hnot Hf]].
      * left. exists k0, c. split; [by right|]. done.
      * right. split; [|done]. intros k0 [Heq|Hin]%elem_of_cons.
        -- injection Heq as _ Heq. lia.
        -- by apply (Hnot k0).
Qed.

(** X7. The fill-targeting loop returns as many fields as it was given. A live
    field with a correspondence (k, j) is filled from the record with the
    type of the cached field k, unless that type has no group; a live field
    without correspondence is returned as it came. There are at most
    [section_end - section_start] correspondences. *)
Theorem fill_section_loop_targets src form_structure form
    section_start section_end matched filled :
  fill_section_loop FillSelectControl_card FillSelectControl_profile src
    form_structure section_end section_start 0 (form_fields form)
    = Some (matched, filled) →
  length filled = length (form_fields form) ∧
  length matched ≤ section_end - section_start ∧
  ∀ j live, form_fields form !! j = Some live →
    (∃ k c, (k, j) ∈ matched ∧ fields form_structure !! k = Some c ∧
            filled !! j =
              Some (if negb (bool_decide (group (type c) = NO_GROUP))
                    then fill_from FillSelectControl_card FillSelectControl_profile
                           src (type c) live
                    else live)) ∨
    ((∀ k, (k, j) ∉ matched) ∧ filled !! j = Some live).
Proof.
  intros Hrun.
  destruct (fill_section_loop_spec _ _ _ _ _ _ _ _ _ _ Hrun) as (Ha & _ & Hlen).
  split_and!; [done| |].
  - destruct matched as [|p matched _] using rev_ind; [simpl; lia|].
    destruct p as [k j].
    destruct (Ha (length matched) k j) as ([Hlo Hhi] & _).
    { rewrite lookup_app_r by lia. by rewrite Nat.sub_diag. }
    rewrite length_app. simpl. lia.
  - intros j live Hl.
    by apply (fill_section_loop_frame _ _ _ _ _ _ _ _ Hrun j live).
Qed.

End matcher_effects.

(** ** The fill request: lookups, bounds and the shape of the reply *)

Section fill_request.
Context `{FieldTypes}.
Variable FillSelectControl_card : CreditCard → AutofillFieldType → FormField → FormField.
Variable FillSelectControl_profile :
  AutoFillProfile → AutofillFieldType → FormField → FormField.
Variable IsValidGUID : string → bool.
Variable FormStructure_eq : FormStructure → FormData → bool.

Abbreviation fill := (fill_from FillSelectControl_card FillSelectControl_profile).
Abbreviation fill_single :=
  (fill_single_field FillSelectControl_card FillSelectControl_profile).
Abbreviation fill_loop :=
  (fill_section_loop FillSelectControl_card FillSelectControl_profile).
Abbreviation on_fill :=
  (OnFillAutoFillFormData FillSelectControl_card FillSelectControl_profile
     IsValidGUID FormStructure_eq).

Lemma find_first {A} (f : A → bool) (l : list A) x :
  List.find f l = Some x →
  ∃ n, l !! n = Some x ∧ f x = true ∧
       ∀ n' y, n' < n → l !! n' = Some y → f y = false.
Proof.
  induction l as [|a l IH]; simpl; [done|].
  destruct (f a) eqn:Hfa.
  - intros [= ->]. exists 0. split_and!; [done|done|]. intros; lia.
  - intros Hfind. destruct (IH Hfind) as (n & Hl & Hfx & Hfirst).
    exists (S n). split_and!; [done|done|].
    intros [|n'] y Hlt Hy; simpl in Hy; [congruence|].
    apply (Hfirst n' y); [lia|done].
Qed.

Lemma find_field_index_first field cached_from_i : ∀ i n,
  find_field_index field i cached_from_i = Some n →
  i ≤ n ∧
  (∃ c, cached_from_i !! (n - i) = Some c ∧ FormField_eq (form_field c) field = true) ∧
  ∀ n' c', i ≤ n' < n → cached_from_i !! (n' - i) = Some c' →
           FormField_eq (form_field c') field = false.
Proof.
  induction cached_from_i as [|c rest IH]; intros i n Hf; simpl in Hf; [done|].
  destruct (FormField_eq (form_field c) field) eqn:Heq.
  - injection Hf as <-. rewrite Nat.sub_diag. split_and!; [done|by exists c|].
    intros; lia.
  - destruct (IH (S i) n Hf) as (Hle & (c0 & Hc0 & He0) & Hfirst).
    split_and!; [lia| |].
    + exists c0. split; [|done]. by replace (n - i) with (S (n - S i)) by lia.
    + intros n' c' Hn' Hc'. destruct (decide (n' = i)) as [->|Hne].
      * rewrite Nat.sub_diag in Hc'. simpl in Hc'. congruence.
      * apply (Hfirst n' c'); [lia|].
        by replace (n' - i) with (S (n' - S i)) in Hc' by lia.
Qed.

(** X8. FindCachedFormAndField returns the first cached form that equals the
    live form, provided that form has fields of known type, and the index
    of its first field that equals the live field. *)
Theorem FindCachedFormAndField_sound m form field form_structure autofill_field :
  FindCachedFormAndField FormStructure_eq m form field
    = Some (form_structure, autofill_field) →
  (∃ n, form_structures_ m !! n = Some form_structure ∧
        FormStructure_eq form_structure form = true ∧
        ∀ n' fs, n' < n → form_structures_ m !! n' = Some fs →
                 FormStructure_eq fs form = false) ∧
  autofill_count form_structure ≠ 0 ∧
  (∃ c, fields form_structure !! autofill_field = Some c ∧
        FormField_eq (form_field c) field = true) ∧
  ∀ i c, i < autofill_field → fields form_structure !! i = Some c →
         FormField_eq (form_field c) field = false.
Proof.
  unfold FindCachedFormAndField, FindCachedForm. intros Hf.
  destruct (List.find (λ fs, FormStructure_eq fs form) (form_structures_ m))
    as [fs|] eqn:Hfind; [|done].
  simpl in Hf. case_bool_decide as Hcount; [done|].
  destruct (find_field_index field 0 (fields fs)) as [n|] eqn:Hn; [|done].
  simpl in Hf. injection Hf as <- <-.
  destruct (find_field_index_first _ _ _ _ Hn) as (_ & Hc & Hfirst).
  rewrite Nat.sub_0_r in Hc.
  split_and!; [by apply (find_first _ _ _ Hfind)|done|done|].
  intros i c Hi Hl. apply (Hfirst i c); [lia|]. by rewrite Nat.sub_0_r.
Qed.

(** X9. OnFillAutoFillFormData never reads beyond the cached fields: the range
    it gets from FindSectionBounds lies within the cached form. *)
Theorem OnFillAutoFillFormData_defined m form field unique_id :
  is_Some (OnFillAutoFillFormData FillSelectControl_card FillSelectControl_profile
             IsValidGUID FormStructure_eq m form field unique_id).
Proof.
  unfold OnFillAutoFillFormData.
  destruct (GetHost m); cbn [negb]; [|done].
  destruct (FindCachedFormAndField FormStructure_eq m form field)
    as [[form_structure autofill_field]|] eqn:Hfind; [|done].
  destruct (UnpackGUIDs (codec_state m) unique_id) as [cc_guid profile_guid].
  destruct (fill_source _ _) as [src|]; [|done].
  set (cc := bool_decide (is_Some (find_credit_card IsValidGUID m cc_guid))).
  pose proof (FindSectionBounds_loop_range autofill_field cc (fields form_structure) 0
                {| section_start := 0; section_end := field_count form_structure;
                   seen_types := ∅;
                   initiating_field_is_in_current_section := false |}) as Hr.
  simpl in Hr. unfold field_count in Hr. specialize (Hr ltac:(lia) eq_refl).
  unfold FindSectionBounds, FindSectionBounds_scan, field_count.
  set (st := FindSectionBounds_loop _ _ _ _ _) in *.
  destruct (SectionIsAutoFilled form_structure form (section_start st) (section_end st)).
  - destruct (FindCachedFormAndField_in_form _ _ _ _ _ _ Hfind) as [c ->]. done.
  - destruct (fill_section_loop_defined FillSelectControl_card
                FillSelectControl_profile src form_structure (section_end st)
                (form_fields form) (section_start st) 0) as [[matched filled] ->];
      [unfold field_count; lia|done].
Qed.

(** X10. A reply is sent only when autofill is enabled with a host and stored
    records, the live form and field are cached, and the unique id names a
    stored profile or credit card with a valid GUID. The reply carries the
    name of the incoming form and as many fields as it. *)
Theorem OnFillAutoFillFormData_reply m form field unique_id result :
  on_fill m form field unique_id = Some (FormDataFilled result) →
  GetHost m = true ∧
  is_Some (FindCachedFormAndField FormStructure_eq m form field) ∧
  ((∃ p, p ∈ profiles m ∧ IsValidGUID (AutoFillProfile_guid p) = true ∧
         AutoFillProfile_guid p = (UnpackGUIDs (codec_state m) unique_id).2) ∨
   (∃ c, c ∈ credit_cards m ∧ IsValidGUID (CreditCard_guid c) = true ∧
         CreditCard_guid c = (UnpackGUIDs (codec_state m) unique_id).1)) ∧
  form_name result = form_name form ∧
  length (form_fields result) = length (form_fields form).
Proof.
  unfold OnFillAutoFillFormData.
  destruct (GetHost m); cbn [negb]; [|done].
  destruct (FindCachedFormAndField FormStructure_eq m form field)
    as [[form_structure autofill_field]|] eqn:Hfind; [|done].
  destruct (UnpackGUIDs (codec_state m) unique_id) as [cc_guid profile_guid].
  cbn [fst snd].
  destruct (fill_source _ _) as [src|] eqn:Hsrc; [|done].
  intros Hrun. split; [done|]. split; [done|]. split.
  { unfold fill_source, find_profile, find_credit_card in Hsrc.
    destruct (IsValidGUID profile_guid) eqn:Hvp.
    - destruct (List.find _ (profiles m)) as [p|] eqn:Hp.
      + left. apply find_some in Hp as [Hin Heq]. apply bool_decide_eq_true in Heq.
        exists p. split; [by apply list_elem_of_In|]. by rewrite Heq.
      + destruct (IsValidGUID cc_guid) eqn:Hvc; [|done].
        destruct (List.find _ (credit_cards m)) as [c|] eqn:Hc; [|done].
        right. apply find_some in Hc as [Hin Heq]. apply bool_decide_eq_true in Heq.
        exists c. split; [by apply list_elem_of_In|]. by rewrite Heq.
    - destruct (IsValidGUID cc_guid) eqn:Hvc; [|done].
      destruct (List.find _ (credit_cards m)) as [c|] eqn:Hc; [|done].
      right. apply find_some in Hc as [Hin Heq]. apply bool_decide_eq_true in Heq.
      exists c. split; [by apply list_elem_of_In|]. by rewrite Heq. }
  destruct (FindSectionBounds _ _ _) as [section_start section_end].
  destruct (SectionIsAutoFilled _ _ _ _).
  - destruct (fields form_structure !! autofill_field) as [c|]; [|done].
    simpl in Hrun. injection Hrun as <-. simpl. split; [done|].
    apply fill_single_field_spec.
  - destruct (fill_section_loop _ _ _ _ _ _ _ _) as [[matched filled]|] eqn:Hloop;
      [|done].
    simpl in Hrun. injection Hrun as <-. simpl. split; [done|].
    by destruct (fill_section_loop_spec _ _ _ _ _ _ _ _ _ _ Hloop) as (_ & _ & ?).
Qed.

End fill_request.

(** ** The fill request changes values only *)

Section fill_values.
Context `{FieldTypes}.
Variable FillSelectControl_card : CreditCard → AutofillFieldType → FormField → FormField.
Variable FillSelectControl_profile :
  AutoFillProfile → AutofillFieldType → FormField → FormField.
Variable IsValidGUID : string → bool.
Variable FormStructure_eq : FormStructure → FormData → bool.

(** The select-control handler picks a value for the field it is given. *)
Hypothesis FillSelectControl_card_value : ∀ c t f,
  ∃ v, FillSelectControl_card c t f = set_value f v.
Hypothesis FillSelectControl_profile_value : ∀ p t f,
  ∃ v, FillSelectControl_profile p t f = set_value f v.

Abbreviation fill := (fill_from FillSelectControl_card FillSelectControl_profile).
Abbreviation fill_single :=
  (fill_single_field FillSelectControl_card FillSelectControl_profile).
Abbreviation on_fill :=
  (OnFillAutoFillFormData FillSelectControl_card FillSelectControl_profile
     IsValidGUID FormStructure_eq).

Lemma set_value_same f : f = set_value f (value f).
Proof. by destruct f. Qed.

Lemma fill_from_value src type f : ∃ v, fill src type f = set_value f v.
Proof.
  destruct src as [profile|credit_card]; simpl.
  - unfold FillFormField, FillPhoneNumberField.
    repeat case_match; try by eexists.
    apply FillSelectControl_profile_value.
  - unfold FillCreditCardFormField.
    repeat case_match; try by eexists.
    + apply FillSelectControl_card_value.
    + exists (value f). apply set_value_same.
Qed.

Lemma fill_single_field_value src type field l : ∀ j live,
  l !! j = Some live →
  ∃ v, fill_single src type field l !! j = Some (set_value live v).
Proof.
  induction l as [|iter rest IH]; intros j live Hl; [done|]. simpl.
  destruct (FormField_eq iter field).
  - destruct j as [|j]; simpl in *.
    + injection Hl as <-. destruct (fill_from_value src type iter) as [v ->].
      by exists v.
    + exists (value live). by rewrite <- set_value_same.
  - destruct j as [|j]; simpl in *.
    + injection Hl as <-. exists (value iter). by rewrite <- set_value_same.
    + by apply IH.
Qed.

(** X11. Provided the two select-control fillers only set the value of the
    field, every field of the reply to a fill request is the incoming field
    at the same position with, at most, another value: name, label, control
    type, maximum length and the autofilled flag are never touched. *)
Theorem OnFillAutoFillFormData_values_only m form field unique_id result :
  on_fill m form field unique_id = Some (FormDataFilled result) →
  ∀ j live, form_fields form !! j = Some live →
    ∃ v, form_fields result !! j = Some (set_value live v).
Proof.
  unfold OnFillAutoFillFormData.
  destruct (GetHost m); cbn [negb]; [|done].
  destruct (FindCachedFormAndField FormStructure_eq m form field)
    as [[form_structure autofill_field]|]; [|done].
  destruct (UnpackGUIDs (codec_state m) unique_id) as [cc_guid profile_guid].
  destruct (fill_source _ _) as [src|]; [|done].
  destruct (FindSectionBounds _ _ _) as [section_start section_end].
  destruct (SectionIsAutoFilled _ _ _ _).
  - destruct (fields form_structure !! autofill_field) as [c|]; [|done].
    simpl. intros [= <-] j live Hl. simpl. by apply fill_single_field_value.
  - destruct (fill_section_loop _ _ _ _ _ _ _ _) as [[matched filled]|] eqn:Hloop;
      [|done].
    simpl. intros [= <-] j live Hl. simpl.
    destruct (fill_section_loop_frame _ _ _ _ _ _ _ _ _ _ Hloop j live Hl)
      as [(k & c & _ & _ & ->)|[_ ->]].
    + destruct (negb _).
      * destruct (fill_from_value src (type c) live) as [v ->]. by exists v.
      * exists (value live). by rewrite <- set_value_same.
    + exists (value live). by rewrite <- set_value_same.
Qed.

End fill_values.

(** ** Suggestions: one row per matching record, with an id that decodes *)

Section suggestions.
Context `{FieldTypes}.
Variable IsValidGUID : string → bool.
Variable StartsWith : string → string → bool → bool.
Variable CreateInferredLabels :
  list AutoFillProfile → list AutofillFieldType → AutofillFieldType → nat →
  list string.

Abbreviation PackGUIDs := (PackGUIDs IsValidGUID).
Abbreviation codec_steps := (codec_steps IsValidGUID).
Abbreviation codec_reachable := (codec_reachable IsValidGUID).
Abbreviation decoded_guid := (decoded_guid IsValidGUID).
Abbreviation card_loop := (GetCreditCardSuggestions_loop IsValidGUID StartsWith).
Abbreviation profile_loop := (GetProfileSuggestions_loop IsValidGUID StartsWith).
Abbreviation card_qualifies := (card_qualifies StartsWith).
Abbreviation profile_qualifies := (profile_qualifies StartsWith).
Abbreviation ids_decode := (ids_decode IsValidGUID).

Lemma ids_decode_later {R} (guids_of : R → string * string) cs cs' ids records :
  codec_steps cs cs' → ids_decode guids_of cs ids records →
  ids_decode guids_of cs' ids records.
Proof.
  intros Hsteps Hdec. eapply Forall2_impl; [exact Hdec|].
  intros id r Hid s' Hs' Hb. apply Hid; [|done]. by etrans.
Qed.

Lemma decoded_guid_empty : decoded_guid "" = "".
Proof. unfold decoded_guid. by destruct (IsValidGUID ""). Qed.

(** The credit card loop appends one row per qualifying card, in order. *)
Lemma GetCreditCardSuggestions_loop_rows field type cards :
  ∀ values labels icons unique_ids cs,
  let chosen := List.filter (card_qualifies field type) cards in
  let res := card_loop field type cards (values, labels, icons, unique_ids) cs in
  res.1.1.1.1 = values ++ (card_shown_value type <$> chosen) ∧
  res.1.1.1.2 = labels ++ ((λ c, kCreditCardPrefix +:+ LastFourDigits c) <$> chosen) ∧
  res.1.1.2 = icons ++ (CreditCard_type <$> chosen) ∧
  length res.1.2 = length unique_ids + length chosen.
Proof.
  induction cards as [|card cards IH]; intros values labels icons ids cs; simpl.
  { rewrite !app_nil_r. split_and!; (done || lia). }
  fold (card_qualifies field type card).
  destruct (card_qualifies field type card) eqn:Hq.
  - fold (card_shown_value type card).
    destruct (PackGUIDs cs (CreditCard_guid card) "") as [id cs1].
    destruct (IH (values ++ [card_shown_value type card])
                 (labels ++ [kCreditCardPrefix +:+ LastFourDigits card])
                 (icons ++ [CreditCard_type card]) (ids ++ [id]) cs1)
      as (Hv & Hl & Hi & Hu).
    simpl in *. rewrite Hv, Hl, Hi, Hu, <- !app_assoc, length_app. simpl.
    split_and!; (done || lia).
  - apply IH.
Qed.

(** ... and every id it appends decodes to that card's GUID. *)
Lemma GetCreditCardSuggestions_loop_ids field type cards :
  ∀ acc cs earlier,
  codec_inv cs →
  ids_decode (λ c, (decoded_guid (CreditCard_guid c), "")) cs acc.2 earlier →
  let res := card_loop field type cards acc cs in
  codec_inv res.2 ∧ codec_steps cs res.2 ∧
  ids_decode (λ c, (decoded_guid (CreditCard_guid c), "")) res.2 res.1.2
    (earlier ++ List.filter (card_qualifies field type) cards).
Proof.
  induction cards as [|card cards IH]; intros [[[values labels] icons] ids] cs earlier
    Hinv Hdec; simpl.
  { rewrite app_nil_r. split_and!; [done|apply rtc_refl|done]. }
  fold (card_qualifies field type card).
  destruct (card_qualifies field type card) eqn:Hq; [|by apply IH].
  pose proof (PackGUIDs_spec IsValidGUID cs (CreditCard_guid card) "" Hinv)
    as [Hinv1 _].
  assert (codec_steps cs (PackGUIDs cs (CreditCard_guid card) "").2) as Hstep
    by (apply rtc_once, step_pack).
  pose proof (λ s', pack_unpack_general IsValidGUID cs (CreditCard_guid card) "" s' Hinv)
    as Hround.
  destruct (PackGUIDs cs (CreditCard_guid card) "") as [id cs1]. simpl in *.
  destruct (IH (values ++ [card_shown_value type card],
                labels ++ [kCreditCardPrefix +:+ LastFourDigits card],
                icons ++ [CreditCard_type card], ids ++ [id]) cs1
               (earlier ++ [card]) Hinv1) as (Hinv' & Hsteps' & Hdec').
  { simpl. apply Forall2_app.
    - by apply (ids_decode_later _ cs).
    - apply Forall2_cons. split; [|by apply Forall2_nil].
      intros s' Hs' Hb. destruct (Hround s' Hs' Hb) as (-> & _).
      by rewrite decoded_guid_empty. }
  rewrite <- app_assoc in Hdec'. simpl in Hdec'.
  split_and!; [done|by etrans|done].
Qed.

(** X12. GetCreditCardSuggestions offers one row per stored card whose text for
    the type is not empty and starts with what the field holds, in stored
    order: the card's text as value (the obfuscated number when the type is
    the card number), "*" and the last four digits as label, the card type
    as icon. The four vectors have the same length. *)
Theorem GetCreditCardSuggestions_rows m field type :
  let chosen := List.filter (card_qualifies field type) (credit_cards m) in
  let res := (GetCreditCardSuggestions IsValidGUID StartsWith m field type).1 in
  res.1.1.1 = card_shown_value type <$> chosen ∧
  res.1.1.2 = (λ c, "*" +:+ LastFourDigits c) <$> chosen ∧
  res.1.2 = CreditCard_type <$> chosen ∧
  length res.2 = length chosen.
Proof.
  unfold GetCreditCardSuggestions.
  destruct (GetCreditCardSuggestions_loop_rows field type (credit_cards m)
              [] [] [] [] (codec_state m)) as (Hv & Hl & Hi & Hu).
  simpl in *. by rewrite Hv, Hl, Hi, Hu.
Qed.

(** X13. The unique id of the n-th credit card suggestion, sent back at any later
    time while at most 65535 ids are in use, unpacks to the GUID of the n-th
    qualifying card and no profile GUID (the empty string when the card's
    GUID is not valid). *)
Theorem GetCreditCardSuggestions_ids m field type s' :
  codec_reachable (codec_state m) →
  let res := GetCreditCardSuggestions IsValidGUID StartsWith m field type in
  codec_steps res.2 s' → (last_id s' ≤ 65536)%Z →
  Forall2 (λ id c, UnpackGUIDs s' id = (decoded_guid (CreditCard_guid c), ""))
          res.1.2 (List.filter (card_qualifies field type) (credit_cards m)).
Proof.
  intros Hreach res Hsteps Hbound. subst res. unfold GetCreditCardSuggestions in *.
  pose proof (codec_reachable_inv IsValidGUID _ Hreach) as Hinv.
  destruct (GetCreditCardSuggestions_loop_ids field type (credit_cards m)
              ([], [], [], []) (codec_state m) [] Hinv) as (_ & _ & Hdec).
  { by constructor. }
  simpl in Hdec. eapply Forall2_impl; [exact Hdec|].
  intros id c Hid. by apply Hid.
Qed.

(** The profile loop: matched profiles, their texts, and ids that decode. *)
Lemma GetProfileSuggestions_loop_spec field type ps :
  ∀ matched values ids cs,
  codec_inv cs →
  ids_decode (λ p, ("", decoded_guid (AutoFillProfile_guid p))) cs ids matched →
  let chosen := List.filter (profile_qualifies field type) ps in
  let res := profile_loop field type ps (matched, values, ids) cs in
  res.1.1.1 = matched ++ chosen ∧
  res.1.1.2 = values ++ ((λ p, AutoFillProfile_GetFieldText p type) <$> chosen) ∧
  codec_inv res.2 ∧ codec_steps cs res.2 ∧
  ids_decode (λ p, ("", decoded_guid (AutoFillProfile_guid p))) res.2 res.1.2
    (matched ++ chosen).
Proof.
  induction ps as [|profile ps IH]; intros matched values ids cs Hinv Hdec; simpl.
  { rewrite !app_nil_r. split_and!; [done|done|done|apply rtc_refl|done]. }
  fold (profile_qualifies field type profile).
  destruct (profile_qualifies field type profile) eqn:Hq; [|by apply IH].
  pose proof (PackGUIDs_spec IsValidGUID cs "" (AutoFillProfile_guid profile) Hinv)
    as [Hinv1 _].
  assert (codec_steps cs (PackGUIDs cs "" (AutoFillProfile_guid profile)).2) as Hstep
    by (apply rtc_once, step_pack).
  pose proof (λ s', pack_unpack_general IsValidGUID cs "" (AutoFillProfile_guid profile)
                      s' Hinv) as Hround.
  destruct (PackGUIDs cs "" (AutoFillProfile_guid profile)) as [id cs1]. simpl in *.
  destruct (IH (matched ++ [profile])
               (values ++ [AutoFillProfile_GetFieldText profile type])
               (ids ++ [id]) cs1 Hinv1) as (Hm & Hv & Hinv' & Hsteps' & Hdec').
  { apply Forall2_app.
    - by apply (ids_decode_later _ cs).
    - apply Forall2_cons. split; [|by apply Forall2_nil].
      intros s' Hs' Hb. destruct (Hround s' Hs' Hb) as (-> & _).
      by rewrite decoded_guid_empty. }
  rewrite <- !app_assoc in *. simpl in *.
  split_and!; [done|done|done|by etrans|done].
Qed.

(** The rows of the profile loop do not depend on the codec state. *)
Lemma GetProfileSuggestions_loop_rows field type ps : ∀ matched values ids cs,
  let chosen := List.filter (profile_qualifies field type) ps in
  let res := profile_loop field type ps (matched, values, ids) cs in
  res.1.1.1 = matched ++ chosen ∧
  res.1.1.2 = values ++ ((λ p, AutoFillProfile_GetFieldText p type) <$> chosen).
Proof.
  induction ps as [|profile ps IH]; intros matched values ids cs; simpl.
  { by rewrite !app_nil_r. }
  fold (profile_qualifies field type profile).
  destruct (profile_qualifies field type profile) eqn:Hq; [|by apply IH].
  destruct (PackGUIDs cs "" (AutoFillProfile_guid profile)) as [id cs1].
  destruct (IH (matched ++ [profile])
               (values ++ [AutoFillProfile_GetFieldText profile type])
               (ids ++ [id]) cs1) as (Hm & Hv).
  rewrite <- !app_assoc in *. simpl in *. done.
Qed.

(** X14. GetProfileSuggestions offers one row per stored profile whose text for
    the type is not empty and starts with what the field holds, in stored
    order, with that text as value and an empty icon; the labels are what
    CreateInferredLabels returns for exactly these profiles. This holds in
    every codec state. When the codec state was reached from the initial
    one, each unique id, sent back in any later state in which at most
    65535 ids are in use ([last_id <= 65536]), unpacks to no credit card
    GUID and the GUID of its profile (the empty string when that GUID is not
    valid). *)
Theorem GetProfileSuggestions_rows m form field type :
  let chosen := List.filter (profile_qualifies field type) (profiles m) in
  let res :=
    GetProfileSuggestions IsValidGUID StartsWith CreateInferredLabels m form
      field type in
  res.1.1.1.1 = (λ p, AutoFillProfile_GetFieldText p type) <$> chosen ∧
  res.1.1.1.2 = CreateInferredLabels chosen (field_types_of form) type 1 ∧
  res.1.1.2 = replicate (length chosen) "" ∧
  (codec_reachable (codec_state m) →
   ∀ s', codec_steps res.2 s' → (last_id s' ≤ 65536)%Z →
     Forall2 (λ id p, UnpackGUIDs s' id
                      = ("", decoded_guid (AutoFillProfile_guid p)))
             res.1.2 chosen).
Proof.
  intros chosen res. subst res. unfold GetProfileSuggestions.
  destruct (GetProfileSuggestions_loop_rows field type (profiles m) [] [] []
              (codec_state m)) as (Hm & Hv).
  pose proof (GetProfileSuggestions_loop_spec field type (profiles m) [] [] []
                (codec_state m)) as Hspec.
  destruct (profile_loop field type (profiles m) ([], [], []) (codec_state m))
    as [[[matched values] ids] cs].
  simpl in *. subst matched values. fold chosen in Hspec |- *.
  split_and!; try done.
  - unfold resize. by rewrite length_fmap, take_nil, Nat.sub_0_r.
  - intros Hreach s' Hsteps Hbound.
    pose proof (codec_reachable_inv IsValidGUID _ Hreach) as Hinv.
    destruct (Hspec Hinv) as (_ & _ & _ & _ & Hdec); [by constructor|].
    eapply Forall2_impl; [exact Hdec|]. intros id p Hid. by apply Hid.
Qed.

End suggestions.

(** ** The suggestion query: aligned, duplicate-free answers *)

Section query.
Context `{FieldTypes}.
Variable IsValidGUID : string → bool.
Variable FormStructure_eq : FormStructure → FormData → bool.
Variable StartsWith : string → string → bool → bool.
Variable CreateInferredLabels :
  list AutoFillProfile → list AutofillFieldType → AutofillFieldType → nat →
  list string.
Variable GetStringUTF16 : Z → string.
Variable IDS_AUTOFILL_WARNING_FORM_DISABLED : Z.
Variable IDS_AUTOFILL_WARNING_INSECURE_CONNECTION : Z.

Abbreviation on_query :=
  (OnQueryFormFieldAutoFill IsValidGUID FormStructure_eq StartsWith
     CreateInferredLabels GetStringUTF16 IDS_AUTOFILL_WARNING_FORM_DISABLED
     IDS_AUTOFILL_WARNING_INSECURE_CONNECTION).
Abbreviation profile_loop := (GetProfileSuggestions_loop IsValidGUID StartsWith).
Abbreviation assembled_suggestions :=
  (assembled_suggestions IsValidGUID StartsWith CreateInferredLabels).

Lemma GetProfileSuggestions_loop_lengths field type ps : ∀ matched values ids cs,
  length matched = length values → length ids = length values →
  let res := profile_loop field type ps (matched, values, ids) cs in
  length res.1.1.1 = length res.1.1.2 ∧ length res.1.2 = length res.1.1.2.
Proof.
  induction ps as [|profile ps IH]; intros matched values ids cs Hm Hi; simpl; [done|].
  destruct (_ && _); [|by apply IH].
  destruct (PackGUIDs IsValidGUID cs "" (AutoFillProfile_guid profile)) as [id cs1].
  apply IH; rewrite !length_app; simpl; lia.
Qed.

(** The label step returns one label per matched profile. *)
Hypothesis CreateInferredLabels_length : ∀ ps ts t n,
  length (CreateInferredLabels ps ts t n) = length ps.

Lemma assembled_suggestions_aligned m form_structure field cached_field :
  aligned (assembled_suggestions m form_structure field cached_field).1.
Proof.
  unfold assembled_suggestions, aligned. case_bool_decide.
  - destruct (GetCreditCardSuggestions_loop_rows IsValidGUID StartsWith field
                (type cached_field) (credit_cards m) [] [] [] [] (codec_state m))
      as (Hv & Hl & Hi & Hu).
    unfold GetCreditCardSuggestions. simpl in *.
    rewrite Hv, Hl, Hi, Hu, !length_fmap. done.
  - unfold GetProfileSuggestions.
    destruct (GetProfileSuggestions_loop_lengths field (type cached_field)
                (profiles m) [] [] [] (codec_state m) eq_refl eq_refl) as [Hm Hu].
    destruct (profile_loop field (type cached_field) (profiles m) ([], [], [])
                (codec_state m)) as [[[matched values] ids] cs].
    simpl in *. rewrite CreateInferredLabels_length. unfold resize.
    rewrite length_app, length_take, length_replicate. simpl. split_and!; lia.
Qed.

(** X15. Provided the label step returns one label per matched profile,
    whatever the query, the four vectors handed to the autocomplete history
    manager have the same length. *)
Theorem OnQueryFormFieldAutoFill_aligned m form field :
  ∃ suggestions cs,
    on_query m form field = Some (suggestions, cs) ∧ aligned suggestions.
Proof.
  unfold OnQueryFormFieldAutoFill.
  destruct (GetHost m); cbn [negb]; [|by eexists _, _].
  destruct (FindCachedFormAndField FormStructure_eq m form field)
    as [[form_structure autofill_field]|] eqn:Hfind; [|by eexists _, _].
  destruct (IsAutoFillable form_structure false); cbn [negb]; [|by eexists _, _].
  destruct (FindCachedFormAndField_in_form _ _ _ _ _ _ Hfind) as [c ->]. simpl.
  pose proof (assembled_suggestions_aligned m form_structure field c) as Hal.
  unfold assembled_suggestions in Hal.
  destruct (if bool_decide (group (type c) = CREDIT_CARD) then _ else _)
    as [[[[values labels] icons] ids] cs].
  destruct Hal as (Hl & Hi & Hu). simpl in Hl, Hi, Hu.
  destruct (is_empty values); cbn [negb]; [by eexists _, _|].
  destruct (negb (bool_decide (_ = 0%Z))); [by eexists _, _|].
  destruct (SectionIsAutoFilled _ _ _ _).
  - rewrite RemoveDuplicateSuggestions_rows by (rewrite ?length_replicate; lia).
    simpl. eexists _, _. split; [done|]. apply unzip4_lengths.
  - rewrite RemoveDuplicateSuggestions_rows by lia.
    simpl. eexists _, _. split; [done|]. apply unzip4_lengths.
Qed.

End query.

Section query_allowed.
Context `{FieldTypes}.
Variable IsValidGUID : string → bool.
Variable FormStructure_eq : FormStructure → FormData → bool.
Variable StartsWith : string → string → bool → bool.
Variable CreateInferredLabels :
  list AutoFillProfile → list AutofillFieldType → AutofillFieldType → nat →
  list string.
Variable GetStringUTF16 : Z → string.
Variable IDS_AUTOFILL_WARNING_FORM_DISABLED : Z.
Variable IDS_AUTOFILL_WARNING_INSECURE_CONNECTION : Z.

Abbreviation on_query :=
  (OnQueryFormFieldAutoFill IsValidGUID FormStructure_eq StartsWith
     CreateInferredLabels GetStringUTF16 IDS_AUTOFILL_WARNING_FORM_DISABLED
     IDS_AUTOFILL_WARNING_INSECURE_CONNECTION).
Abbreviation assembled :=
  (assembled_suggestions IsValidGUID StartsWith CreateInferredLabels).
Abbreviation query_allowed := (query_allowed FormStructure_eq).

Lemma OnQueryFormFieldAutoFill_allowed_run m form field form_structure
    autofill_field cached_field values labels icons unique_ids cs :
  query_allowed m form field form_structure autofill_field cached_field →
  assembled m form_structure field cached_field
    = ((values, labels, icons, unique_ids), cs) →
  values ≠ [] →
  on_query m form field =
    (suggestions ←
       RemoveDuplicateSuggestions values
         (if editing_filled_section form_structure form autofill_field cached_field
          then replicate (length labels) "" else labels)
         (if editing_filled_section form_structure form autofill_field cached_field
          then replicate (length icons) "" else icons)
         unique_ids;
     Some (suggestions, cs)).
Proof.
  intros [Hhost Hfind Hc Hany Hpost Hsecure] Hsugg Hne.
  unfold OnQueryFormFieldAutoFill, editing_filled_section.
  rewrite Hhost, Hfind, Hany, Hc. cbn [negb fmap option_fmap option_map mbind option_bind].
  unfold assembled_suggestions in Hsugg. rewrite Hsugg.
  destruct values as [|v values]; [done|]. cbn [is_empty negb].
  rewrite Hpost. cbn [negb].
  assert ((bool_decide (group (type cached_field) = CREDIT_CARD)
           && negb (FormIsHTTPS form_structure)) = false) as ->.
  { case_bool_decide as Hcc; [|done]. by rewrite (Hsecure Hcc). }
  rewrite bool_decide_eq_true_2 by done. cbn [negb].
  destruct (FindSectionBounds form_structure autofill_field _) as [s e]. cbn [fst snd].
  by destruct (SectionIsAutoFilled form_structure form s e).
Qed.

Lemma unzip4_values values labels icons unique_ids :
  length labels = length values → length icons = length values →
  length unique_ids = length values →
  values = (λ r : Row, r.1.1.1) <$> zip4 values labels icons unique_ids ∧
  labels = (λ r : Row, r.1.1.2) <$> zip4 values labels icons unique_ids ∧
  icons = (λ r : Row, r.1.2) <$> zip4 values labels icons unique_ids.
Proof.
  intros Hl Hi Hu. pose proof (unzip4_zip4 values labels icons unique_ids Hl Hi Hu) as Hz.
  unfold unzip4 in Hz. injection Hz as H1 H2 H3 _. by rewrite H1, H2, H3.
Qed.

Lemma dedup_rows_subset seen rows r : r ∈ dedup_rows seen rows → r ∈ rows.
Proof.
  intros Hr. destruct (dedup_rows_first rows seen r Hr) as (pre & post & -> & _).
  apply elem_of_app. right. by left.
Qed.

(** X16. An allowed query with at least one assembled value, the assembled
    vectors being of one length, is answered with the assembled rows without
    repetition: no (value, label) pair occurs twice,
    and a value is offered exactly when it was assembled. *)
Theorem OnQueryFormFieldAutoFill_no_duplicates m form field form_structure
    autofill_field cached_field values labels icons unique_ids cs :
  query_allowed m form field form_structure autofill_field cached_field →
  assembled m form_structure field cached_field
    = ((values, labels, icons, unique_ids), cs) →
  values ≠ [] →
  aligned (values, labels, icons, unique_ids) →
  ∃ values' labels' icons' unique_ids',
    on_query m form field = Some ((values', labels', icons', unique_ids'), cs) ∧
    NoDup (zip values' labels') ∧
    (∀ v, v ∈ values' ↔ v ∈ values).
Proof.
  intros Hallowed Hsugg Hne (Hl & Hi & Hu). simpl in Hl, Hi, Hu.
  rewrite (OnQueryFormFieldAutoFill_allowed_run _ _ _ _ _ _ _ _ _ _ _
             Hallowed Hsugg Hne).
  set (labels0 := if editing_filled_section _ _ _ _ then _ else labels).
  set (icons0 := if editing_filled_section _ _ _ _ then _ else icons).
  assert (length labels0 = length values) as Hl0.
  { unfold labels0. destruct (editing_filled_section _ _ _ _);
      rewrite ?length_replicate; lia. }
  assert (length icons0 = length values) as Hi0.
  { unfold icons0. destruct (editing_filled_section _ _ _ _);
      rewrite ?length_replicate; lia. }
  rewrite RemoveDuplicateSuggestions_rows by done. simpl.
  set (rows := zip4 values labels0 icons0 unique_ids).
  eexists _, _, _, _. split; [done|].
  destruct (unzip4_values values labels0 icons0 unique_ids Hl0 Hi0 Hu) as (Hv & _ & _).
  fold rows in Hv. split.
  - pose proof (keys_unzip4 (dedup_rows ∅ rows)) as Hk. simpl in Hk. rewrite Hk.
    apply dedup_rows_keys.
  - intros v. rewrite Hv. split.
    + intros (r & -> & Hr)%list_elem_of_fmap.
      apply (list_elem_of_fmap_2 (λ r : Row, r.1.1.1)).
      by apply (dedup_rows_subset ∅).
    + intros (r & -> & Hr)%list_elem_of_fmap.
      assert (row_key r ∈ (row_key <$> dedup_rows ∅ rows)) as Hkey.
      { apply dedup_rows_complete; [by apply list_elem_of_fmap_2|].
        apply not_elem_of_empty. }
      apply list_elem_of_fmap in Hkey as (r' & Heq & Hr').
      apply list_elem_of_fmap. exists r'. split; [|done].
      unfold row_key in Heq. congruence.
Qed.

(** X17. When the user edits a field of an already filled section, the answer
    mimics plain autocomplete: every label and every icon is empty and no
    value is offered twice. *)
Theorem OnQueryFormFieldAutoFill_editing m form field form_structure
    autofill_field cached_field values labels icons unique_ids cs :
  query_allowed m form field form_structure autofill_field cached_field →
  assembled m form_structure field cached_field
    = ((values, labels, icons, unique_ids), cs) →
  values ≠ [] →
  aligned (values, labels, icons, unique_ids) →
  editing_filled_section form_structure form autofill_field cached_field = true →
  ∃ values' labels' icons' unique_ids',
    on_query m form field = Some ((values', labels', icons', unique_ids'), cs) ∧
    NoDup values' ∧
    (∀ l, l ∈ labels' → l = "") ∧ (∀ i, i ∈ icons' → i = "").
Proof.
  intros Hallowed Hsugg Hne (Hl & Hi & Hu) Hedit. simpl in Hl, Hi, Hu.
  rewrite (OnQueryFormFieldAutoFill_allowed_run _ _ _ _ _ _ _ _ _ _ _
             Hallowed Hsugg Hne), Hedit.
  rewrite RemoveDuplicateSuggestions_rows by (rewrite ?length_replicate; lia). simpl.
  set (rows := zip4 values (replicate (length labels) "")
                 (replicate (length icons) "") unique_ids).
  destruct (unzip4_values values (replicate (length labels) "")
              (replicate (length icons) "") unique_ids) as (_ & Hlab & Hico);
    rewrite ?length_replicate; try lia.
  fold rows in Hlab, Hico.
  assert (∀ r, r ∈ dedup_rows ∅ rows → r.1.1.2 = "" ∧ r.1.2 = "") as Hblank.
  { intros r Hr%dedup_rows_subset. split.
    - assert (r.1.1.2 ∈ replicate (length labels) "") as Hin
        by (rewrite Hlab; by apply (list_elem_of_fmap_2 (λ r : Row, r.1.1.2))).
      by apply elem_of_replicate in Hin as [-> _].
    - assert (r.1.2 ∈ replicate (length icons) "") as Hin
        by (rewrite Hico; by apply (list_elem_of_fmap_2 (λ r : Row, r.1.2))).
      by apply elem_of_replicate in Hin as [-> _]. }
  eexists _, _, _, _. split; [done|]. split_and!.
  - destruct (dedup_rows_keys rows ∅) as [Hnd _].
    apply (NoDup_fmap_1 (λ v : string, (v, ""))).
    rewrite <- list_fmap_compose.
    assert (((λ v : string, (v, "")) ∘ (λ r : Row, r.1.1.1)) <$> dedup_rows ∅ rows
            = row_key <$> dedup_rows ∅ rows) as ->; [|exact Hnd].
    apply Forall_fmap_ext_1, Forall_forall. intros r Hr.
    destruct (Hblank r Hr) as [Hb _]. unfold row_key. simpl. by rewrite Hb.
  - intros l (r & -> & Hr)%list_elem_of_fmap. by apply Hblank.
  - intros i (r & -> & Hr)%list_elem_of_fmap. by apply Hblank.
Qed.

End query_allowed.

(** ** The form cache and the upload window *)

Section cache_facts.
Context `{FieldTypes}.
Variable FillSelectControl_card : CreditCard → AutofillFieldType → FormField → FormField.
Variable FillSelectControl_profile :
  AutoFillProfile → AutofillFieldType → FormField → FormField.
Variable IsValidGUID : string → bool.
Variable FormStructure_eq : FormStructure → FormData → bool.
Variable StartsWith : string → string → bool → bool.
Variable CreateInferredLabels :
  list AutoFillProfile → list AutofillFieldType → AutofillFieldType → nat →
  list string.
Variable GetStringUTF16 : Z → string.
Variable IDS_AUTOFILL_WARNING_FORM_DISABLED : Z.
Variable IDS_AUTOFILL_WARNING_INSECURE_CONNECTION : Z.
Variable FormStructure_of : FormData → FormStructure.
Variable ShouldBeParsed : FormStructure → bool → bool.

Abbreviation on_fill :=
  (OnFillAutoFillFormData FillSelectControl_card FillSelectControl_profile
     IsValidGUID FormStructure_eq).
Abbreviation on_query :=
  (OnQueryFormFieldAutoFill IsValidGUID FormStructure_eq StartsWith
     CreateInferredLabels GetStringUTF16 IDS_AUTOFILL_WARNING_FORM_DISABLED
     IDS_AUTOFILL_WARNING_INSECURE_CONNECTION).
Abbreviation parse_loop := (ParseForms_loop FormStructure_of ShouldBeParsed).
Abbreviation parse := (ParseForms FormStructure_of ShouldBeParsed).
Abbreviation on_forms_seen := (OnFormsSeen FormStructure_of ShouldBeParsed).
Abbreviation queryable := (queryable ShouldBeParsed).
Abbreviation cached_only := (cached_only ShouldBeParsed).

Lemma ParseForms_loop_spec forms : ∀ cache non_queryable,
  parse_loop forms cache non_queryable =
    (cache ++ List.filter queryable (FormStructure_of <$> forms),
     non_queryable ++ List.filter cached_only (FormStructure_of <$> forms)).
Proof.
  induction forms as [|f forms IH]; intros cache nq; simpl.
  { by rewrite !app_nil_r. }
  unfold queryable, cached_only.
  destruct (ShouldBeParsed (FormStructure_of f) false); simpl; [|apply IH].
  destruct (ShouldBeParsed (FormStructure_of f) true); simpl.
  - rewrite IH. by rewrite <- app_assoc.
  - rewrite IH. by rewrite <- app_assoc.
Qed.

(** X18. ParseForms keeps the cache and appends to it, first the new forms
    that may be queried, then the new forms that are only cached; forms that
    fail [ShouldBeParsed(false)] are dropped. The query is made only if the
    old cache followed by the new queryable forms is not empty and requests
    are not disabled, and it is given exactly that list: the whole old
    cache, whatever it holds, and the new queryable forms. *)
Theorem ParseForms_partition disable cache forms :
  let parsed := FormStructure_of <$> forms in
  let sent := cache ++ List.filter queryable parsed in
  parse disable cache forms =
    (sent ++ List.filter cached_only parsed,
     if negb (is_empty sent) && negb disable then Some sent else None).
Proof. unfold ParseForms. by rewrite ParseForms_loop_spec. Qed.

Lemma find_app_Some {A} (f : A → bool) (l l' : list A) x :
  List.find f l = Some x → List.find f (l ++ l') = Some x.
Proof.
  induction l as [|a l IH]; simpl; [done|]. by destruct (f a).
Qed.

(** X19. Seeing more forms never changes what an already cached live form and
    field resolve to: new forms are appended behind the cached ones. *)
Theorem OnFormsSeen_keeps_cached disable m forms form field found :
  FindCachedFormAndField FormStructure_eq m form field = Some found →
  FindCachedFormAndField FormStructure_eq (on_forms_seen disable m forms).1 form field
    = Some found.
Proof.
  unfold OnFormsSeen. destruct (IsAutoFillEnabled m); cbn [negb]; [|done].
  unfold ParseForms. rewrite ParseForms_loop_spec. cbn [fst].
  unfold FindCachedFormAndField, FindCachedForm. simpl.
  destruct (List.find _ (form_structures_ m)) as [fs|] eqn:Hfind; [|done].
  rewrite <- app_assoc. by rewrite (find_app_Some _ _ _ _ Hfind).
Qed.

(** X20. After Reset no form is cached: a fill request gets no reply, a query
    gets four empty vectors, and the codec state is untouched. *)
Theorem Reset_forgets_forms m form field unique_id :
  on_fill (Reset m) form field unique_id = Some NoReply ∧
  on_query (Reset m) form field = Some (([], [], [], []), codec_state m).
Proof.
  unfold OnFillAutoFillFormData, OnQueryFormFieldAutoFill, Reset.
  destruct (GetHost (set_form_structures m [])); done.
Qed.

End cache_facts.

Section upload_window.

Lemma UploadFormData_scan_spec signature it : ∀ total was,
  total ≤ 3 →
  UploadFormData_scan signature it total was =
    (drop (3 - total) it, total + min (3 - total) (length it),
     was || bool_decide (signature ∈ take (3 - total) it)).
Proof.
  induction it as [|s it IH]; intros total was Htotal; simpl.
  { rewrite drop_nil, take_nil, Nat.min_0_r, Nat.add_0_r.
    rewrite bool_decide_eq_false_2 by apply not_elem_of_nil.
    by rewrite orb_false_r. }
  destruct (total <? 3) eqn:Hlt.
  - apply Nat.ltb_lt in Hlt. rewrite IH by lia.
    replace (3 - total) with (S (3 - S total)) by lia. simpl.
    f_equal; [f_equal; lia|].
    case_bool_decide as Hs.
    + subst s. rewrite orb_true_l.
      rewrite (bool_decide_eq_true_2 (signature ∈ signature :: _)) by (by left).
      by rewrite orb_true_r.
    + destruct (decide (signature ∈ take (3 - S total) it)) as [Hin|Hnot].
      * rewrite !bool_decide_eq_true_2; [done|by right|done].
      * rewrite !bool_decide_eq_false_2; [done| |done].
        intros [?|?]%elem_of_cons; [by subst|done].
  - apply Nat.ltb_ge in Hlt. replace (3 - total) with 0 by lia. simpl.
    rewrite ?bool_decide_eq_false_2 by apply not_elem_of_nil.
    rewrite orb_false_r. f_equal. f_equal. lia.
Qed.

(** X21. With upload requests enabled, UploadFormData reports a submitted form
    as auto-filled exactly when its signature is among the first three
    entries of the list of filled forms, and it cuts the list down to these
    three entries; with requests disabled it does nothing. *)
Theorem UploadFormData_window disable signatures signature :
  UploadFormData disable signatures signature =
    if disable then (signatures, None)
    else (take 3 signatures, Some (bool_decide (signature ∈ take 3 signatures))).
Proof.
  unfold UploadFormData. destruct disable; cbn [negb]; [done|].
  rewrite UploadFormData_scan_spec by lia.
  change (3 - 0) with 3. cbn [orb Nat.add]. f_equal.
  destruct (decide (length signatures ≤ 3)) as [Hshort|Hlong].
  - rewrite (drop_ge signatures 3) by lia. simpl. rewrite andb_false_r.
    by rewrite take_ge.
  - assert (min 3 (length signatures) = 3) as -> by lia.
    rewrite bool_decide_eq_true_2 by done.
    assert (is_empty (drop 3 signatures) = false) as ->.
    { destruct (drop 3 signatures) eqn:Hdrop; [|done].
      apply (f_equal length) in Hdrop. rewrite length_drop in Hdrop.
      simpl in Hdrop. lia. }
    cbn [negb andb]. rewrite length_drop. f_equal. lia.
Qed.

End upload_window.

(** ** Concrete runs for the further properties *)

(** "guid-A" is packed, then "guid-B"; asking for "guid-A" again gives the
    id it had. *)
Lemma GUIDToID_stable_witness :
  let s' := (PackGUIDs demo_IsValidGUID
               (GUIDToID demo_IsValidGUID codec_init "guid-A").2 "" "guid-B").2 in
  GUIDToID demo_IsValidGUID s' "guid-A"
    = ((GUIDToID demo_IsValidGUID codec_init "guid-A").1, s').
Proof.
  intros s'.
  apply (GUIDToID_stable demo_IsValidGUID codec_init "guid-A" s').
  - reflexivity.
  - apply rtc_once, step_pack.
Defined.

Lemma GUIDToID_injective_witness :
  (1 ≤ (GUIDToID demo_IsValidGUID codec_init "guid-A").1)%Z ∧
  ((GUIDToID demo_IsValidGUID codec_init "guid-A").1
     = (GUIDToID demo_IsValidGUID
          (GUIDToID demo_IsValidGUID codec_init "guid-A").2 "guid-B").1 →
   "guid-A" = "guid-B").
Proof.
  apply (GUIDToID_injective demo_IsValidGUID codec_init "guid-A" "guid-B").
  - apply rtc_refl.
  - reflexivity.
  - reflexivity.
  - apply rtc_refl.
Defined.

Lemma UnpackGUIDs_valid_or_empty_witness :
  optional_guid demo_IsValidGUID
    (UnpackGUIDs (demo_manager []).(codec_state) 65537).1 ∧
  optional_guid demo_IsValidGUID
    (UnpackGUIDs (demo_manager []).(codec_state) 65537).2 ∧
  UnpackGUIDs (demo_manager []).(codec_state) 0 = ("", "").
Proof.
  apply (UnpackGUIDs_valid_or_empty demo_IsValidGUID).
  apply rtc_once, step_pack.
Defined.

(** Name, city and phone, filled from a profile: one section. *)
Lemma FindSectionBounds_whole_form_witness :
  FindSectionBounds three_field_form 1 false = (0, field_count three_field_form).
Proof.
  apply FindSectionBounds_whole_form.
  - intros fld Hin _. simpl in Hin.
    repeat (apply elem_of_cons in Hin as [->|Hin]; [reflexivity|]).
    by apply elem_of_nil in Hin.
  - intros i j fi fj Hlt Hi Hj _ [_ Hp].
    destruct i as [|[|[|i]]], j as [|[|[|j]]]; simpl in Hi, Hj;
      try lia; try discriminate;
      injection Hi as <-; injection Hj as <-; vm_compute in Hp |- *; congruence.
Defined.

Lemma SectionIsAutoFilled_sound_witness :
  0 < 1 ∧
  ∃ j live k,
    form_fields (live_form [autofilled_field "a"; Demo.text_field "b"]) !! j
      = Some live ∧
    is_autofilled live = true ∧ 0 ≤ k < field_count two_field_form ∧
    matches_at (fields two_field_form) live k.
Proof.
  apply (SectionIsAutoFilled_sound two_field_form
           (live_form [autofilled_field "a"; Demo.text_field "b"]) 0 1).
  vm_compute. reflexivity.
Defined.

Lemma fill_section_loop_targets_witness :
  length [set_value (Demo.text_field "c") "5551234567";
          set_value (Demo.text_field "b") "5551234567"]
    = length (form_fields (live_form [Demo.text_field "c"; Demo.text_field "b"])).
Proof.
  refine (proj1 (fill_section_loop_targets no_select no_select
                   (FromProfile phone_profile) three_field_form
                   (live_form [Demo.text_field "c"; Demo.text_field "b"]) 0 3
                   [(2, 0); (1, 1)] _ _)).
  vm_compute. reflexivity.
Defined.

Lemma FindCachedFormAndField_sound_witness :
  ∃ c, fields two_field_form !! 0 = Some c ∧
       FormField_eq (form_field c) (autofilled_field "a") = true.
Proof.
  refine (proj1 (proj2 (proj2 (FindCachedFormAndField_sound any_form
                          (demo_manager [two_field_form])
                          (live_form [autofilled_field "a"; Demo.text_field "b"])
                          (autofilled_field "a") two_field_form 0 _)))).
  vm_compute. reflexivity.
Defined.

Lemma OnFillAutoFillFormData_reply_witness :
  GetHost (demo_manager [two_field_form]) = true.
Proof.
  refine (proj1 (OnFillAutoFillFormData_reply no_select no_select demo_IsValidGUID
                   any_form (demo_manager [two_field_form])
                   (live_form [autofilled_field "a"; Demo.text_field "b"])
                   (autofilled_field "a") 1
                   (live_form [set_value (autofilled_field "a") "5551234567";
                               Demo.text_field "b"]) _)).
  vm_compute. reflexivity.
Defined.

Lemma OnFillAutoFillFormData_values_only_witness :
  ∃ v,
    form_fields (live_form [set_value (autofilled_field "a") "5551234567";
                            Demo.text_field "b"]) !! 0
      = Some (set_value (autofilled_field "a") v).
Proof.
  apply (OnFillAutoFillFormData_values_only no_select no_select demo_IsValidGUID
           any_form) with (m := demo_manager [two_field_form])
           (form := live_form [autofilled_field "a"; Demo.text_field "b"])
           (field := autofilled_field "a") (unique_id := 1%Z).
  - intros c t f. exists (value f). by destruct f.
  - intros c t f. exists (value f). by destruct f.
  - vm_compute. reflexivity.
  - reflexivity.
Defined.

Lemma GetCreditCardSuggestions_ids_witness :
  Forall2 (λ id c, UnpackGUIDs
                     (GetCreditCardSuggestions demo_IsValidGUID any_prefix card_manager
                        (Demo.text_field "card") Demo.CARD_NUMBER).2 id
                   = (decoded_guid demo_IsValidGUID (CreditCard_guid c), ""))
    (GetCreditCardSuggestions demo_IsValidGUID any_prefix card_manager
       (Demo.text_field "card") Demo.CARD_NUMBER).1.2
    (List.filter (card_qualifies any_prefix (Demo.text_field "card") Demo.CARD_NUMBER)
       (credit_cards card_manager)).
Proof.
  apply (GetCreditCardSuggestions_ids demo_IsValidGUID any_prefix card_manager
           (Demo.text_field "card") Demo.CARD_NUMBER).
  - apply rtc_refl.
  - apply rtc_refl.
  - vm_compute. discriminate.
Defined.

(** The one stored profile is offered; its id, sent back at once, unpacks
    to its GUID. *)
Lemma GetProfileSuggestions_rows_witness :
  Forall2 (λ id p, UnpackGUIDs (demo_manager [two_field_form]).(codec_state) id
                   = ("", decoded_guid demo_IsValidGUID (AutoFillProfile_guid p)))
    (GetProfileSuggestions demo_IsValidGUID any_prefix no_labels
       (demo_manager [two_field_form]) two_field_form (Demo.text_field "a")
       Demo.NAME_FULL).1.2
    (List.filter (profile_qualifies any_prefix (Demo.text_field "a") Demo.NAME_FULL)
       (profiles (demo_manager [two_field_form]))).
Proof.
  refine (proj2 (proj2 (proj2
            (GetProfileSuggestions_rows demo_IsValidGUID any_prefix no_labels
               (demo_manager [two_field_form]) two_field_form
               (Demo.text_field "a") Demo.NAME_FULL)))
            _ (demo_manager [two_field_form]).(codec_state) _ _).
  - apply rtc_once, step_pack.
  - vm_compute. apply rtc_refl.
  - vm_compute. discriminate.
Defined.

Lemma OnQueryFormFieldAutoFill_aligned_witness :
  ∃ suggestions cs,
    OnQueryFormFieldAutoFill demo_IsValidGUID any_form any_prefix blank_labels
      warning_text 101 102 (demo_manager [two_field_form])
      (live_form [Demo.text_field "a"; Demo.text_field "b"]) (Demo.text_field "a")
    = Some (suggestions, cs) ∧ aligned suggestions.
Proof.
  apply (OnQueryFormFieldAutoFill_aligned demo_IsValidGUID any_form any_prefix
           blank_labels warning_text 101 102).
  intros ps ts t n. apply length_replicate.
Defined.

Lemma OnQueryFormFieldAutoFill_no_duplicates_witness :
  ∃ values' labels' icons' unique_ids',
    OnQueryFormFieldAutoFill demo_IsValidGUID any_form any_prefix blank_labels
      warning_text 101 102 (demo_manager [two_field_form])
      (live_form [Demo.text_field "a"; Demo.text_field "b"]) (Demo.text_field "a")
    = Some ((values', labels', icons', unique_ids'),
            (demo_manager [two_field_form]).(codec_state)) ∧
    NoDup (zip values' labels') ∧
    (∀ v, v ∈ values' ↔ v ∈ ["5551234567"]).
Proof.
  apply (OnQueryFormFieldAutoFill_no_duplicates demo_IsValidGUID any_form any_prefix
           blank_labels warning_text 101 102 (demo_manager [two_field_form])
           (live_form [Demo.text_field "a"; Demo.text_field "b"]) (Demo.text_field "a")
           two_field_form 0 (Demo.cached "a" Demo.NAME_FULL)
           ["5551234567"] [""] [""] [1%Z]).
  - split; try reflexivity; try discriminate.
  - vm_compute. reflexivity.
  - discriminate.
  - by split_and!.
Defined.

Lemma OnQueryFormFieldAutoFill_editing_witness :
  ∃ values' labels' icons' unique_ids',
    OnQueryFormFieldAutoFill demo_IsValidGUID any_form any_prefix blank_labels
      warning_text 101 102 (demo_manager [two_field_form])
      (live_form [autofilled_field "a"; Demo.text_field "b"]) (Demo.text_field "a")
    = Some ((values', labels', icons', unique_ids'),
            (demo_manager [two_field_form]).(codec_state)) ∧
    NoDup values' ∧
    (∀ l, l ∈ labels' → l = "") ∧ (∀ i, i ∈ icons' → i = "").
Proof.
  apply (OnQueryFormFieldAutoFill_editing demo_IsValidGUID any_form any_prefix
           blank_labels warning_text 101 102 (demo_manager [two_field_form])
           (live_form [autofilled_field "a"; Demo.text_field "b"]) (Demo.text_field "a")
           two_field_form 0 (Demo.cached "a" Demo.NAME_FULL)
           ["5551234567"] [""] [""] [1%Z]).
  - split; try reflexivity; try discriminate.
  - vm_compute. reflexivity.
  - discriminate.
  - by split_and!.
  - vm_compute. reflexivity.
Defined.

Lemma OnFormsSeen_keeps_cached_witness :
  FindCachedFormAndField any_form
    (OnFormsSeen (λ _, three_field_form) (λ _ _, true) false
       (demo_manager [two_field_form]) [live_form []]).1
    (live_form [autofilled_field "a"; Demo.text_field "b"]) (autofilled_field "a")
  = Some (two_field_form, 0).
Proof.
  apply OnFormsSeen_keeps_cached. vm_compute. reflexivity.
Defined.
